(** * RPC facade dispatch of the API server (apiserver/root.go)

    A shallow embedding of the session root of the API server: the
    post-login root dispatcher [apiRoot] with its lazily filled object
    cache, the pre-login [anonRoot], the authorisation predicates of
    [apiHandler] and [DescribeFacades].

    Go values are modelled as follows.  [int] is [Z], [string] is
    [string], a [(value, error)] return is a [result], a call that may
    panic returns an [outcome].  Maps are [gmap]s.  The collaborators
    whose code lives in other packages (the facade registry
    [common.Facades], [reflect], [rpcreflect], [common.Resources]) are
    taken as parameters of the development. *)

From stdpp Require Import gmap strings list fin_maps.

(** ** Results of Go calls *)

(** A Go [(T, error)] return value. *)
Inductive result (E A : Type) : Type :=
| Ok (a : A)
| Err (e : E).
Arguments Ok {E A} a.
Arguments Err {E A} e.

(** A Go call either returns or panics. *)
Inductive outcome (A : Type) : Type :=
| Return (a : A)
| Panic.
Arguments Return {A} a.
Arguments Panic {A}.

(** ** Cache keys *)

Record objectKey : Type := ObjectKey {
  name : string;
  version : Z;
  objId : string
}.

Global Instance objectKey_eq_dec : EqDecision objectKey.
Proof. solve_decision. Defined.

Global Instance objectKey_countable : Countable objectKey.
Proof.
  refine (inj_countable'
            (λ k, (name k, version k, objId k))
            (λ t, ObjectKey t.1.1 t.1.2 t.2) _).
  by intros [].
Defined.

(** ** Errors *)

(** The error values that flow through the dispatcher. *)
Inductive error : Type :=
| CallNotImplementedError (RootMethod : string) (Version : Z) (Method : string)
    (* *rpcreflect.CallNotImplementedError; an omitted field is "" *)
| RequestError (Code Message : string)
    (* *rpc.RequestError *)
| ErrMethodNotFound
    (* the sentinel rpcreflect.ErrMethodNotFound *)
| NotFound (what : string)
    (* an error for which errors.IsNotFound holds *)
| Errorf_internal (rootName : string) (version : Z) (goType objType : string)
    (* errors.Errorf("internal error, %s(%d) claimed to return %s but
       returned %T", rootName, version, goType, obj): the four
       arguments of the format, the types by their names *)
| OtherError (msg : string).
    (* any other error a collaborator may hand back *)

(** errors.IsNotFound *)
Definition IsNotFound (err : error) : bool :=
  match err with
  | NotFound _ => true
  | _ => false
  end.

(** The error kind, i.e. the Go type of the error value. *)
Inductive errorKind : Type :=
| KindCallNotImplemented
| KindRequestError
| KindOther.

Definition kindOf (err : error) : errorKind :=
  match err with
  | CallNotImplementedError _ _ _ => KindCallNotImplemented
  | RequestError _ _ => KindRequestError
  | _ => KindOther
  end.

(** ** Objects and reflected values *)

(** What a facade factory hands back inside its [interface{}]: an
    instance, identified by its address, together with its runtime type. *)
Record Obj (rtype : Type) : Type := MkObj {
  obj_addr : nat;
  obj_type : rtype
}.
Arguments MkObj {rtype}.
Arguments obj_addr {rtype}.
Arguments obj_type {rtype}.

(** A [reflect.Value]: the instance it wraps and the type it presents. *)
Record Value (rtype : Type) : Type := MkValue {
  val_type : rtype;
  val_obj : Obj rtype
}.
Arguments MkValue {rtype}.
Arguments val_type {rtype}.
Arguments val_obj {rtype}.

(** sync.RWMutex: the number of read locks held and whether the write
    lock is held. *)
Record RWMutex : Type := MkRWMutex {
  readers : nat;
  writer : bool
}.

Definition unlocked : RWMutex := MkRWMutex 0 false.

(** common.FacadeDescription, the element type of the registry's
    enumeration, and params.FacadeVersions, the element type of the
    answer of DescribeFacades.  Both have fields [Name] and [Versions]. *)
Module common.
Record FacadeDescription : Type := MkFacadeDescription {
  Name : string;
  Versions : list Z
}.
End common.

Module params.
Record FacadeVersions : Type := MkFacadeVersions {
  Name : string;
  Versions : list Z
}.
End params.

(** ** Collaborators *)

(** reflect.Type with the two queries the dispatcher makes of it, and
    rpcreflect.ObjMethod with the method set that
    [rpcreflect.ObjTypeOf(goType).Method(name)] consults. *)
Class Reflection : Type := {
  rtype : Type;
  AssignableTo : rtype → rtype → bool;
  KindIsInterface : rtype → bool;
  TypeString : rtype → string;
  ObjMethod : Type;
  ObjTypeOf_Method : rtype → string → result error ObjMethod
}.

(** The handles a session carries: *state.State, *rpc.Conn,
    *common.Resources with the operations used on it, and the
    facade.Authorizer. *)
Class Backend : Type := {
  State : Type;
  Conn : Type;
  Resources : Type;
  Authorizer : Type;
  NewResources : Resources;
  RegisterNamed : Resources → string → string → result error Resources;
  StopAll : Resources → Resources
}.

(** The admin implementation objects held by the anonymous root and
    what [rpcreflect.ValueOf(reflect.ValueOf(api)).FindMethod] answers
    for them. *)
Class AdminSurface : Type := {
  Api : Type;
  MethodCaller : Type;
  Value_FindMethod : Api → string → Z → string → outcome (result error MethodCaller);
  CodeNotSupported : string
}.

Section Dispatch.

Context `{Reflection} `{Backend}.

(** apiRoot *)
Record apiRoot : Type := MkApiRoot {
  state : State;
  resources : Resources;
  authorizer : Authorizer;
  objectMutex : RWMutex;
  objectCache : gmap objectKey (Value rtype)
}.

(** newAPIRoot *)
Definition newAPIRoot (st : State) (res : Resources) (auth : Authorizer)
  : apiRoot :=
  {| state := st;
     resources := res;
     authorizer := auth;
     objectMutex := unlocked;
     objectCache := ∅ |}.

(** facadeContext *)
Record facadeContext : Type := MkFacadeContext {
  ctx_r : apiRoot;
  ctx_id : string
}.

Definition Auth (ctx : facadeContext) : Authorizer := authorizer (ctx_r ctx).
Definition ctxResources (ctx : facadeContext) : Resources := resources (ctx_r ctx).
Definition ctxState (ctx : facadeContext) : State := state (ctx_r ctx).
Definition ID (ctx : facadeContext) : string := ctx_id ctx.

(** A facade factory is Go code with effects of its own, so two
    invocations with the same context need not agree.  The model hands
    it, next to the context, the number of factory invocations this
    root has made before.  It returns [(interface{}, error)]; a nil
    interface is [None]. *)
Definition Factory : Type :=
  facadeContext → nat → result error (option (Obj rtype)).

(** The part of common.Facades the dispatcher consumes. *)
Record FacadeRegistry : Type := MkFacadeRegistry {
  GetType : string → Z → result error rtype;
  GetFactory : string → Z → result error Factory;
  List : list common.FacadeDescription
}.

(** lookupMethod *)
Definition lookupMethod (Facades : FacadeRegistry) (rootName : string)
    (version : Z) (methodName : string)
  : result error (rtype * ObjMethod) :=
  match GetType Facades rootName version with
  | Err err =>
      if IsNotFound err
      then Err (CallNotImplementedError rootName version "")
      else Err err
  | Ok goType =>
      match ObjTypeOf_Method goType methodName with
      | Err err =>
          match err with
          | ErrMethodNotFound =>
              Err (CallNotImplementedError rootName version methodName)
          | _ => Err err
          end
      | Ok objMethod => Ok (goType, objMethod)
      end
  end.

(** What it means for a combination to be absent from the registry:
    the registry reports the facade as not found, or the facade's
    method set reports the method as not found.  The index is the
    method name the resulting error carries. *)
Inductive missing (Facades : FacadeRegistry) (rootName : string) (version : Z)
    (methodName : string) : string → Prop :=
| missing_facade err :
    GetType Facades rootName version = Err err →
    IsNotFound err = true →
    missing Facades rootName version methodName ""
| missing_method goType :
    GetType Facades rootName version = Ok goType →
    ObjTypeOf_Method goType methodName = Err ErrMethodNotFound →
    missing Facades rootName version methodName methodName.

(** One factory invocation as the root's log keeps it: the cache key it
    was made for, the type the closure expected and what the factory
    returned. *)
Record invocation : Type := MkInvocation {
  inv_key : objectKey;
  inv_goType : rtype;
  inv_result : result error (option (Obj rtype))
}.

(** The mutable world of one connection: the root and the log of the
    factory invocations made through it (the log is instrumentation,
    the code has no such field). *)
Record world : Type := MkWorld {
  root : apiRoot;
  calls : list invocation
}.

Definition setCache (w : world) (c : gmap objectKey (Value rtype)) : world :=
  {| root := {| state := state (root w);
                resources := resources (root w);
                authorizer := authorizer (root w);
                objectMutex := objectMutex (root w);
                objectCache := c |};
     calls := calls w |}.

Definition setMutex (w : world) (m : RWMutex) : world :=
  {| root := {| state := state (root w);
                resources := resources (root w);
                authorizer := authorizer (root w);
                objectMutex := m;
                objectCache := objectCache (root w) |};
     calls := calls w |}.

Definition logCall (w : world) (i : invocation) : world :=
  {| root := root w; calls := calls w ++ [i] |}.

(** The four operations of r.objectMutex, as they change the mutex
    when they go through.  (RUnlock and Unlock of a mutex that is not
    locked are fatal in Go; the closure never does that.) *)
Definition RLock (w : world) : world :=
  let m := objectMutex (root w) in
  setMutex w (MkRWMutex (S (readers m)) (writer m)).

Definition RUnlock (w : world) : world :=
  let m := objectMutex (root w) in
  setMutex w (MkRWMutex (pred (readers m)) (writer m)).

Definition Lock (w : world) : world :=
  let m := objectMutex (root w) in
  setMutex w (MkRWMutex (readers m) true).

Definition Unlock (w : world) : world :=
  let m := objectMutex (root w) in
  setMutex w (MkRWMutex (readers m) false).

(** apiRoot.facadeContext *)
Definition apiRoot_facadeContext (r : apiRoot) (id : string) : facadeContext :=
  {| ctx_r := r; ctx_id := id |}.

(** Lines 226-241 of the closure: reflect.ValueOf(obj), the
    assignability check and the re-wrapping as an interface value.
    [reflect.ValueOf(nil)] is the zero Value, whose [Type()] panics. *)
Definition checkType (rootName : string) (version : Z) (goType : rtype)
    (obj : option (Obj rtype)) : outcome (result error (Value rtype)) :=
  match obj with
  | None => Panic
  | Some o =>
      let objValue := MkValue (obj_type o) o in
      if negb (AssignableTo (val_type objValue) goType)
      then Return (Err (Errorf_internal rootName version (TypeString goType)
                          (TypeString (obj_type o))))
      else if KindIsInterface goType
           then Return (Ok (MkValue goType o))
           else Return (Ok objValue)
  end.

(** The creator closure built by [apiRoot.FindMethod], run from
    beginning to end without interference from other goroutines, on a
    root whose mutex is free.  The deferred Unlock runs on every return
    after Lock, the panicking one included. *)
Definition creator (Facades : FacadeRegistry) (rootName : string) (version : Z)
    (goType : rtype) (id : string) (w : world)
  : outcome (result error (Value rtype)) * world :=
  let objKey := {| name := rootName; version := version; objId := id |} in
  let w1 := RLock w in
  let hit := objectCache (root w1) !! objKey in
  let w2 := RUnlock w1 in
  match hit with
  | Some objValue => (Return (Ok objValue), w2)
  | None =>
      let w3 := Lock w2 in
      match objectCache (root w3) !! objKey with
      | Some objValue => (Return (Ok objValue), Unlock w3)
      | None =>
          match GetFactory Facades rootName version with
          | Err err => (Return (Err err), Unlock w3)
          | Ok factory =>
              let res := factory (apiRoot_facadeContext (root w3) id)
                                 (length (calls w3)) in
              let w4 := logCall w3 (MkInvocation objKey goType res) in
              match res with
              | Err err => (Return (Err err), Unlock w4)
              | Ok obj =>
                  match checkType rootName version goType obj with
                  | Panic => (Panic, Unlock w4)
                  | Return (Err err) => (Return (Err err), Unlock w4)
                  | Return (Ok objValue) =>
                      (Return (Ok objValue),
                       Unlock (setCache w4
                                 (<[objKey := objValue]> (objectCache (root w4)))))
                  end
              end
          end
      end
  end.

(** srvCaller: the method descriptor and the creator closure, the
    latter given by the variables it captured. *)
Record srvCaller : Type := MkSrvCaller {
  objMethod : ObjMethod;
  cr_rootName : string;
  cr_version : Z;
  cr_goType : rtype
}.

(** apiRoot.FindMethod *)
Definition FindMethod (Facades : FacadeRegistry) (rootName : string)
    (version : Z) (methodName : string)
  : result error srvCaller :=
  match lookupMethod Facades rootName version methodName with
  | Err err => Err err
  | Ok (goType, objMethod) =>
      Ok {| objMethod := objMethod;
            cr_rootName := rootName;
            cr_version := version;
            cr_goType := goType |}
  end.

Definition callCreator (Facades : FacadeRegistry) (s : srvCaller) (id : string) (w : world)
  : outcome (result error (Value rtype)) * world :=
  creator Facades (cr_rootName s) (cr_version s) (cr_goType s) id w.

(** ** The closure run by concurrent goroutines

    The RPC transport serves each call of a connection in a goroutine
    of its own.  The model is an interleaving of atomic steps, one per
    lock operation, cache access or collaborator call of the closure.
    A goroutine is the closure it runs, the object id it was called
    with and the point it has reached. *)
Inductive pc : Type :=
| AtRLock                                   (* r.objectMutex.RLock() *)
| AtRead                                    (* r.objectCache[objKey] *)
| AtRUnlock (hit : option (Value rtype))    (* RUnlock(); if ok return *)
| AtLock                                    (* r.objectMutex.Lock() *)
| AtRecheck                                 (* second cache lookup *)
| AtGetFactory                              (* common.Facades.GetFactory *)
| AtFactory (factory : Factory)             (* factory(r.facadeContext(id)) *)
| AtCheck (obj : option (Obj rtype))        (* type check and re-wrapping *)
| AtStore (objValue : Value rtype)          (* r.objectCache[objKey] = objValue *)
| AtUnlock (res : outcome (result error (Value rtype)))
                                            (* the deferred Unlock() *)
| Finished (res : outcome (result error (Value rtype))).

Record goroutine : Type := MkGoroutine {
  caller : srvCaller;
  arg_id : string;
  at_pc : pc
}.

Definition spawn (c : srvCaller * string) : goroutine :=
  {| caller := c.1; arg_id := c.2; at_pc := AtRLock |}.

Definition objKey (g : goroutine) : objectKey :=
  {| name := cr_rootName (caller g);
     version := cr_version (caller g);
     objId := arg_id g |}.

(** One step of a goroutine; [None] when it is blocked on the mutex or
    has returned.  RLock waits while the write lock is held, Lock waits
    while any lock is held.  (Go's RWMutex also holds new readers back
    while a Lock is waiting; the model does not, which only adds
    interleavings.) *)
Definition goStep (Facades : FacadeRegistry) (g : goroutine) (w : world)
  : option (pc * world) :=
  let m := objectMutex (root w) in
  let s := caller g in
  match at_pc g with
  | AtRLock =>
      if writer m then None else Some (AtRead, RLock w)
  | AtRead => Some (AtRUnlock (objectCache (root w) !! objKey g), w)
  | AtRUnlock hit =>
      match hit with
      | Some objValue => Some (Finished (Return (Ok objValue)), RUnlock w)
      | None => Some (AtLock, RUnlock w)
      end
  | AtLock =>
      if writer m then None
      else match readers m with
           | O => Some (AtRecheck, Lock w)
           | S _ => None
           end
  | AtRecheck =>
      match objectCache (root w) !! objKey g with
      | Some objValue => Some (AtUnlock (Return (Ok objValue)), w)
      | None => Some (AtGetFactory, w)
      end
  | AtGetFactory =>
      match GetFactory Facades (cr_rootName s) (cr_version s) with
      | Err err => Some (AtUnlock (Return (Err err)), w)
      | Ok factory => Some (AtFactory factory, w)
      end
  | AtFactory factory =>
      let res := factory (apiRoot_facadeContext (root w) (arg_id g))
                         (length (calls w)) in
      let w1 := logCall w (MkInvocation (objKey g) (cr_goType s) res) in
      match res with
      | Err err => Some (AtUnlock (Return (Err err)), w1)
      | Ok obj => Some (AtCheck obj, w1)
      end
  | AtCheck obj =>
      match checkType (cr_rootName s) (cr_version s) (cr_goType s) obj with
      | Panic => Some (AtUnlock Panic, w)
      | Return (Err err) => Some (AtUnlock (Return (Err err)), w)
      | Return (Ok objValue) => Some (AtStore objValue, w)
      end
  | AtStore objValue =>
      Some (AtUnlock (Return (Ok objValue)),
            setCache w (<[objKey g := objValue]> (objectCache (root w))))
  | AtUnlock res => Some (Finished res, Unlock w)
  | Finished _ => None
  end.

Definition setPc (g : goroutine) (p : pc) : goroutine :=
  {| caller := caller g; arg_id := arg_id g; at_pc := p |}.

(** A configuration: the shared world and the goroutines. *)
Record config : Type := MkConfig {
  shared : world;
  pool : list goroutine
}.

(** Goroutine [i] takes a step. *)
Definition step (Facades : FacadeRegistry) (i : nat) (c : config) : option config :=
  match pool c !! i with
  | None => None
  | Some g =>
      match goStep Facades g (shared c) with
      | None => None
      | Some (p, w) => Some {| shared := w; pool := <[i := setPc g p]> (pool c) |}
      end
  end.

(** Running a schedule; a goroutine that cannot move when it is picked
    is passed over. *)
Definition run (Facades : FacadeRegistry) (sched : list nat) (c : config) : config :=
  foldl (λ c i, default c (step Facades i c)) c sched.

Definition steps (Facades : FacadeRegistry) (c c' : config) : Prop :=
  ∃ i, step Facades i c = Some c'.

(** The calls in flight on a fresh root. *)
Definition start (st : State) (res : Resources) (auth : Authorizer)
    (cs : list (srvCaller * string)) : config :=
  {| shared := {| root := newAPIRoot st res auth; calls := [] |};
     pool := spawn <$> cs |}.

Definition finished (g : goroutine) : bool :=
  match at_pc g with
  | Finished _ => true
  | _ => false
  end.

Definition allFinished (c : config) : bool := forallb finished (pool c).

(** The factory invocations logged for a key. *)
Definition callsFor (k : objectKey) (c : config) : list invocation :=
  filter (λ i, inv_key i = k) (calls (shared c)).

(** An invocation whose object passed the type check, i.e. one that
    led to a cache insertion. *)
Definition accepted (i : invocation) : bool :=
  match inv_result i with
  | Ok obj =>
      match checkType (name (inv_key i)) (version (inv_key i)) (inv_goType i) obj with
      | Return (Ok _) => true
      | _ => false
      end
  | Err _ => false
  end.

(** *** Invariants of the interleaving *)

(** Holding a read lock, holding the write lock, and having called the
    factory without having stored or dropped its object yet. *)
Definition inRead (g : goroutine) : bool :=
  match at_pc g with
  | AtRead | AtRUnlock _ => true
  | _ => false
  end.

Definition inWrite (g : goroutine) : bool :=
  match at_pc g with
  | AtRecheck | AtGetFactory | AtFactory _ | AtCheck _ | AtStore _ | AtUnlock _ => true
  | _ => false
  end.

Definition pending (g : goroutine) : bool :=
  match at_pc g with
  | AtCheck _ | AtStore _ => true
  | _ => false
  end.

(** The number of steps a goroutine has left at most. *)
Definition rank (g : goroutine) : nat :=
  match at_pc g with
  | AtRLock => 10
  | AtRead => 9
  | AtRUnlock _ => 8
  | AtLock => 7
  | AtRecheck => 6
  | AtGetFactory => 5
  | AtFactory _ => 4
  | AtCheck _ => 3
  | AtStore _ => 2
  | AtUnlock _ => 1
  | Finished _ => 0
  end.

Definition tally (f : goroutine → nat) (l : list goroutine) : nat :=
  sum_list (f <$> l).

Definition remaining (c : config) : nat := tally rank (pool c).

Definition flag (b : bool) : nat := if b then 1 else 0.

(** The mutex agrees with the goroutines: its reader count is the
    number of goroutines between RLock and RUnlock, its writer flag is
    set exactly when a (single) goroutine is between Lock and Unlock,
    and then no read lock is held. *)
Definition lockInv (c : config) : Prop :=
  let m := objectMutex (root (shared c)) in
  readers m = tally (λ g, flag (inRead g)) (pool c)
  ∧ flag (writer m) = tally (λ g, flag (inWrite g)) (pool c)
  ∧ (writer m = true → readers m = 0).

Definition failedFor (k : objectKey) (l : list invocation) : Prop :=
  ∀ inv, inv ∈ l → inv_key inv = k → accepted inv = false.

(** What a goroutine is about to return. *)
Definition resultInv (Facades : FacadeRegistry) (w : world) (g : goroutine)
    (res : outcome (result error (Value rtype))) : Prop :=
  match res with
  | Return (Ok objValue) => objectCache (root w) !! objKey g = Some objValue
  | _ =>
      (∃ err, GetFactory Facades (cr_rootName (caller g)) (cr_version (caller g))
              = Err err)
      ∨ (∃ inv, inv ∈ calls w ∧ inv_key inv = objKey g
                ∧ inv_goType inv = cr_goType (caller g) ∧ accepted inv = false)
  end.

(** What a goroutine knows at each point. *)
Definition localInv (Facades : FacadeRegistry) (w : world) (g : goroutine) : Prop :=
  let s := caller g in
  match at_pc g with
  | AtRUnlock (Some objValue) => objectCache (root w) !! objKey g = Some objValue
  | AtGetFactory => objectCache (root w) !! objKey g = None
  | AtFactory factory =>
      objectCache (root w) !! objKey g = None
      ∧ GetFactory Facades (cr_rootName s) (cr_version s) = Ok factory
  | AtCheck obj =>
      objectCache (root w) !! objKey g = None
      ∧ ∃ l, calls w = l ++ [MkInvocation (objKey g) (cr_goType s) (Ok obj)]
  | AtStore objValue =>
      objectCache (root w) !! objKey g = None
      ∧ ∃ l obj, calls w = l ++ [MkInvocation (objKey g) (cr_goType s) (Ok obj)]
                 ∧ checkType (cr_rootName s) (cr_version s) (cr_goType s) obj
                   = Return (Ok objValue)
  | AtUnlock res | Finished res => resultInv Facades w g res
  | _ => True
  end.

(** The log against the cache: a cached key has exactly one accepted
    invocation, which is the last invocation made for it; a key that is
    not cached has none, except for the invocation whose object is
    still being checked or stored. *)
Definition logInv (c : config) : Prop :=
  ∀ k,
    match objectCache (root (shared c)) !! k with
    | Some _ =>
        ∃ l1 inv l2, calls (shared c) = l1 ++ inv :: l2
                     ∧ inv_key inv = k ∧ accepted inv = true
                     ∧ failedFor k l1 ∧ (∀ i, i ∈ l2 → inv_key i ≠ k)
    | None =>
        failedFor k (calls (shared c))
        ∨ (∃ l inv, calls (shared c) = l ++ [inv] ∧ failedFor k l
                    ∧ ∃ j g, pool c !! j = Some g ∧ objKey g = k
                             ∧ pending g = true)
    end.

(** The handles of a root, which no step changes. *)
Definition handles (r : apiRoot) : State * Resources * Authorizer :=
  (state r, resources r, authorizer r).

(** Every logged invocation was made by a goroutine of the pool, with
    the factory the registry has for its facade and a context of this
    root. *)
Definition genuine (Facades : FacadeRegistry) (c : config) : Prop :=
  ∀ inv, inv ∈ calls (shared c) →
    ∃ j g factory ctx n,
      pool c !! j = Some g ∧ objKey g = inv_key inv
      ∧ cr_goType (caller g) = inv_goType inv
      ∧ GetFactory Facades (cr_rootName (caller g)) (cr_version (caller g))
        = Ok factory
      ∧ inv_result inv = factory ctx n ∧ ctx_id ctx = arg_id g
      ∧ handles (ctx_r ctx) = handles (root (shared c)).

Definition dataInv (Facades : FacadeRegistry) (c : config) : Prop :=
  (∀ j g, pool c !! j = Some g → localInv Facades (shared c) g)
  ∧ logInv c
  ∧ genuine Facades c.

(** A facade whose constructor does not fail for the given closure and
    object id on the connection with the given handles: the registry
    has a factory and every invocation of it for that id on that
    connection returns an object of an assignable type. *)
Definition reliable (Facades : FacadeRegistry)
    (hd : State * Resources * Authorizer) (s : srvCaller) (id : string) : Prop :=
  ∃ factory,
    GetFactory Facades (cr_rootName s) (cr_version s) = Ok factory
    ∧ ∀ ctx n, ctx_id ctx = id → handles (ctx_r ctx) = hd →
        ∃ o, factory ctx n = Ok (Some o)
             ∧ AssignableTo (obj_type o) (cr_goType s) = true.

(** The goroutines are those that were started; only the points they
    have reached change. *)
Definition sameCallers (cs : list (srvCaller * string)) (c : config) : Prop :=
  (λ g, (caller g, arg_id g)) <$> pool c = cs.

(** What holds of every configuration the goroutines can reach. *)
Definition runInv (Facades : FacadeRegistry) (hd : State * Resources * Authorizer)
    (cs : list (srvCaller * string)) (c : config) : Prop :=
  lockInv c ∧ dataInv Facades c ∧ sameCallers cs c
  ∧ handles (root (shared c)) = hd.

(** apiRoot.Kill *)
Definition apiRoot_Kill (r : apiRoot) : apiRoot :=
  {| state := state r;
     resources := StopAll (resources r);
     authorizer := authorizer r;
     objectMutex := objectMutex r;
     objectCache := objectCache r |}.

(** DescribeFacades: [result] starts as [len(facades)] zero values and
    the loop assigns the two fields of [result[i]]. *)
Definition assignFacade (facade : common.FacadeDescription)
    (fv : params.FacadeVersions) : params.FacadeVersions :=
  let fv1 := params.MkFacadeVersions (common.Name facade) (params.Versions fv) in
  params.MkFacadeVersions (params.Name fv1) (common.Versions facade).

(** The pair DescribeFacades reports for a registry entry. *)
Definition toFacadeVersions (facade : common.FacadeDescription)
  : params.FacadeVersions :=
  params.MkFacadeVersions (common.Name facade) (common.Versions facade).

Fixpoint DescribeFacades_loop (i : nat) (facades : list common.FacadeDescription)
    (result : list params.FacadeVersions) : list params.FacadeVersions :=
  match facades with
  | [] => result
  | facade :: rest =>
      DescribeFacades_loop (S i) rest (alter (assignFacade facade) i result)
  end.

Definition DescribeFacades (Facades : FacadeRegistry) : list params.FacadeVersions :=
  let facades := List Facades in
  let result := replicate (length facades) (params.MkFacadeVersions "" []) in
  DescribeFacades_loop 0 facades result.

End Dispatch.

(** ** Identity *)

(** names.Tag: the tag types of the names package. *)
Inductive names_Tag : Type :=
| ActionTag (id : string)
| ApplicationTag (name : string)
| CharmTag (url : string)
| CloudTag (id : string)
| ControllerTag (uuid : string)
| FilesystemTag (id : string)
| IPAddressTag (id : string)
| MachineTag (id : string)
| ModelTag (uuid : string)
| RelationTag (key : string)
| SpaceTag (name : string)
| StorageTag (id : string)
| SubnetTag (cidr : string)
| UnitTag (name : string)
| UserTag (name domain : string)
| VolumeTag (id : string).

Global Instance names_Tag_eq_dec : EqDecision names_Tag.
Proof. solve_decision. Defined.

(** Tag.Kind() *)
Definition Kind (tag : names_Tag) : string :=
  match tag with
  | ActionTag _ => "action"
  | ApplicationTag _ => "application"
  | CharmTag _ => "charm"
  | CloudTag _ => "cloud"
  | ControllerTag _ => "controller"
  | FilesystemTag _ => "filesystem"
  | IPAddressTag _ => "ipaddress"
  | MachineTag _ => "machine"
  | ModelTag _ => "model"
  | RelationTag _ => "relation"
  | SpaceTag _ => "space"
  | StorageTag _ => "storage"
  | SubnetTag _ => "subnet"
  | UnitTag _ => "unit"
  | UserTag _ _ => "user"
  | VolumeTag _ => "volume"
  end.

(** state.Entity: a value with a [Tag()] method. *)
Record Entity : Type := MkEntity {
  Tag : names_Tag
}.

(** The fields of *Server that newAPIHandler reads. *)
Record Server : Type := MkServer {
  tag_Id : string;
  dataDir : string;
  logDir : string
}.

Section Session.

Context `{Backend} `{AdminSurface}.

(** apiHandler.  [entity] is an interface field: [None] is nil. *)
Record apiHandler : Type := MkApiHandler {
  h_state : State;
  rpcConn : Conn;
  h_resources : Resources;
  entity : option Entity;
  modelUUID : string;
  serverHost : string
}.

(** newAPIHandler; errors.Trace keeps the error it annotates. *)
Definition newAPIHandler (srv : Server) (st : State) (conn : Conn)
    (modelUUID serverHost : string) : result error apiHandler :=
  match RegisterNamed NewResources "machineID" (tag_Id srv) with
  | Err err => Err err
  | Ok r1 =>
      match RegisterNamed r1 "dataDir" (dataDir srv) with
      | Err err => Err err
      | Ok r2 =>
          match RegisterNamed r2 "logDir" (logDir srv) with
          | Err err => Err err
          | Ok r3 =>
              Ok {| h_state := st;
                    rpcConn := conn;
                    h_resources := r3;
                    entity := None;
                    modelUUID := modelUUID;
                    serverHost := serverHost |}
          end
      end
  end.

(** apiHandler.Kill *)
Definition apiHandler_Kill (r : apiHandler) : apiHandler :=
  {| h_state := h_state r;
     rpcConn := rpcConn r;
     h_resources := StopAll (h_resources r);
     entity := entity r;
     modelUUID := modelUUID r;
     serverHost := serverHost r |}.

(** apiHandler.GetAuthTag: [r.entity.Tag()], a method call on an
    interface value, which panics when the interface is nil. *)
Definition GetAuthTag (r : apiHandler) : outcome names_Tag :=
  match entity r with
  | None => Panic
  | Some e => Return (Tag e)
  end.

(** apiHandler.AuthMachineAgent *)
Definition AuthMachineAgent (r : apiHandler) : outcome bool :=
  match GetAuthTag r with
  | Panic => Panic
  | Return tag =>
      Return match tag with
             | MachineTag _ => true
             | _ => false
             end
  end.

(** apiHandler.AuthUnitAgent *)
Definition AuthUnitAgent (r : apiHandler) : outcome bool :=
  match GetAuthTag r with
  | Panic => Panic
  | Return tag =>
      Return match tag with
             | UnitTag _ => true
             | _ => false
             end
  end.

(** apiHandler.AuthClient *)
Definition AuthClient (r : apiHandler) : outcome bool :=
  match GetAuthTag r with
  | Panic => Panic
  | Return tag =>
      Return match tag with
             | UserTag _ _ => true
             | _ => false
             end
  end.

(** apiHandler.AuthOwner: [r.entity.Tag() == tag] *)
Definition AuthOwner (r : apiHandler) (tag : names_Tag) : outcome bool :=
  match entity r with
  | None => Panic
  | Some e => Return (bool_decide (Tag e = tag))
  end.

(** apiHandler.ConnectedModel *)
Definition ConnectedModel (r : apiHandler) : string := modelUUID r.

(** apiHandler.GetAuthEntity *)
Definition GetAuthEntity (r : apiHandler) : option Entity := entity r.

(** anonRoot *)
Record anonRoot : Type := MkAnonRoot {
  handler : apiHandler;
  adminAPIs : gmap Z Api
}.

(** newAnonRoot *)
Definition newAnonRoot (h : apiHandler) (adminAPIs : gmap Z Api) : anonRoot :=
  {| handler := h; adminAPIs := adminAPIs |}.

(** anonRoot.FindMethod *)
Definition anonRoot_FindMethod (r : anonRoot) (rootName : string) (version : Z)
    (methodName : string) : outcome (result error MethodCaller) :=
  if negb (String.eqb rootName "Admin")
  then Return (Err (CallNotImplementedError rootName version ""))
  else match adminAPIs r !! version with
       | Some api => Value_FindMethod api rootName 0 methodName
       | None =>
           Return (Err (RequestError CodeNotSupported
             "this version of Juju does not support login from old clients"))
       end.

End Session.

(** ** A concrete instance

    A small registry in the shape of the repository's facades, used to
    run the definitions.  Types are given by their Go names.  "Storage"
    version 1 is the storage facade, whose constructor refuses callers
    that are not client users (createAPI in apiserver/storage); "Skewed"
    is registered with a type its factory does not return; "Logger"
    version 1 is declared with an interface type. *)
Module Demo.

Definition assignable (t goType : string) : bool :=
  bool_decide (t = goType)
  || (bool_decide (goType = "facade.Logger") && bool_decide (t = "*logger.LoggerAPI")).

Definition methodSet (goType methodName : string) : result error string :=
  if bool_decide (goType = "*storage.API")
     && bool_decide (methodName ∈ ["Show"; "List"; "ListPools"; "CreatePool"])
  then Ok methodName
  else if bool_decide (goType = "facade.Logger")
          && bool_decide (methodName ∈ ["WatchLoggingConfig"; "LoggingConfig"])
  then Ok methodName
  else Err ErrMethodNotFound.

Global Instance reflection : Reflection :=
  {| rtype := string;
     AssignableTo := assignable;
     KindIsInterface := λ t, bool_decide (t = "facade.Logger");
     TypeString := λ t, t;
     ObjMethod := string;
     ObjTypeOf_Method := methodSet |}.

(** The resource table as a map from names to string resources; the
    authorizer is given by the tag it authenticates. *)
Global Instance backend : Backend :=
  {| State := unit;
     Conn := unit;
     Resources := gmap string string;
     Authorizer := names_Tag;
     NewResources := ∅;
     RegisterNamed := λ rs n v,
       match rs !! n with
       | Some _ => Err (OtherError "resource already registered")
       | None => Ok (<[n := v]> rs)
       end;
     StopAll := λ rs, rs |}.

Definition storageFactory : Factory :=
  λ ctx n,
    match Auth ctx with
    | UserTag _ _ => Ok (Some (MkObj n "*storage.API"))
    | _ => Err (OtherError "permission denied")
    end.

Definition loggerFactory : Factory :=
  λ ctx n, Ok (Some (MkObj n "*logger.LoggerAPI")).

Definition Facades : FacadeRegistry :=
  {| GetType := λ rootName version,
       if bool_decide (rootName = "Storage" ∧ version = 1%Z) then Ok "*storage.API"
       else if bool_decide (rootName = "Skewed" ∧ version = 1%Z) then Ok "*storage.API"
       else if bool_decide (rootName = "Logger" ∧ version = 1%Z) then Ok "facade.Logger"
       else Err (NotFound (rootName ++ "(version)"));
     GetFactory := λ rootName version,
       if bool_decide (rootName = "Storage" ∧ version = 1%Z) then Ok storageFactory
       else if bool_decide (rootName = "Skewed" ∧ version = 1%Z) then Ok loggerFactory
       else if bool_decide (rootName = "Logger" ∧ version = 1%Z) then Ok loggerFactory
       else Err (NotFound (rootName ++ "(version)"));
     List := [common.MkFacadeDescription "Logger" [1%Z];
              common.MkFacadeDescription "Skewed" [1%Z];
              common.MkFacadeDescription "Storage" [1%Z]] |}.

(** A fresh root for a connection authenticated as [tag]. *)
Definition freshWorld (tag : names_Tag) : world :=
  {| root := newAPIRoot () ∅ tag; calls := [] |}.

Definition storageCaller : srvCaller :=
  {| objMethod := "List";
     cr_rootName := "Storage";
     cr_version := 1;
     cr_goType := "*storage.API" |}.

(** Admin API objects are given by their names; only version 3 is
    served and its object has the one method Login. *)
Global Instance admin : AdminSurface :=
  {| Api := string;
     MethodCaller := string * string;
     Value_FindMethod := λ api rootName version methodName,
       if bool_decide (version = 0%Z ∧ methodName = "Login")
       then Return (Ok (api, methodName))
       else Return (Err (CallNotImplementedError rootName version methodName));
     CodeNotSupported := "not supported" |}.

Definition srv : Server :=
  {| tag_Id := "0"; dataDir := "/var/lib/juju"; logDir := "/var/log/juju" |}.

(** The handler of a connection that has not logged in. *)
Definition anonHandler : apiHandler :=
  {| h_state := ();
     rpcConn := ();
     h_resources := <["logDir" := "/var/log/juju"]>
                      (<["dataDir" := "/var/lib/juju"]>
                         (<["machineID" := "0"]> ∅));
     entity := None;
     modelUUID := "";
     serverHost := "localhost:17070" |}.

Definition loggedIn (tag : names_Tag) : apiHandler :=
  {| h_state := ();
     rpcConn := ();
     h_resources := h_resources anonHandler;
     entity := Some (MkEntity tag);
     modelUUID := "deadbeef";
     serverHost := "localhost:17070" |}.

Definition anon : anonRoot := newAnonRoot anonHandler {[3%Z := "admin.v3"]}.

End Demo.

(** * Properties *)

(** ** Method lookup on the root dispatcher *)

Section LookupProperties.

Context `{Reflection} `{Backend}.

Lemma lookupMethod_missing Facades rootName version methodName what :
  missing Facades rootName version methodName what →
  lookupMethod Facades rootName version methodName
  = Err (CallNotImplementedError rootName version what).
Proof.
  unfold lookupMethod.
  destruct 1 as [err Hty Hnf | goType Hty Hm]; rewrite Hty.
  - by rewrite Hnf.
  - by rewrite Hm.
Qed.

(** C3: for a combination absent from the registry, whichever of
    name, version or method is the missing part, apiRoot.FindMethod
    returns (it is a total function, it cannot crash) the "call not
    implemented" error carrying the root name, the version and, when
    the method is what is missing, the method name. *)
Theorem FindMethod_missing Facades rootName version methodName what :
  missing Facades rootName version methodName what →
  FindMethod Facades rootName version methodName
  = Err (CallNotImplementedError rootName version what)
  ∧ (what = "" ∨ what = methodName)
  ∧ ∀ err, FindMethod Facades rootName version methodName = Err err →
           kindOf err = KindCallNotImplemented.
Proof.
  intros Hmiss. unfold FindMethod.
  rewrite (lookupMethod_missing _ _ _ _ _ Hmiss).
  split; [done|]. split.
  - destruct Hmiss; auto.
  - by intros err [= <-].
Qed.

End LookupProperties.

Lemma FindMethod_missing_witness :
  FindMethod Demo.Facades "Storage" 2 "List"
  = Err (CallNotImplementedError "Storage" 2 "")
  ∧ FindMethod Demo.Facades "Storage" 1 "Destroy"
    = Err (CallNotImplementedError "Storage" 1 "Destroy").
Proof.
  split.
  - apply (FindMethod_missing Demo.Facades "Storage" 2 "List" "").
    apply (missing_facade _ _ _ _ (NotFound "Storage(version)")); reflexivity.
  - apply (FindMethod_missing Demo.Facades "Storage" 1 "Destroy" "Destroy").
    apply (missing_method Demo.Facades _ _ _ ("*storage.API" : @rtype Demo.reflection));
      reflexivity.
Defined.

(** ** Lazy construction, one caller at a time *)

Section CreatorProperties.

Context `{Reflection} `{Backend}.
Implicit Types (Facades : FacadeRegistry) (w : world) (goType : rtype).

Lemma locks_cancel w : RUnlock (RLock w) = w.
Proof. by destruct w as [[st res auth [rd wr] cache] log]. Qed.

Lemma Unlock_Lock_root w :
  writer (objectMutex (root w)) = false → root (Unlock (Lock w)) = root w.
Proof.
  destruct w as [[st res auth [rd wr] cache] log]. simpl. by intros ->.
Qed.

Lemma Lock_root w w' : root w = root w' → root (Lock w) = root (Lock w').
Proof. unfold Lock, setMutex. simpl. by intros ->. Qed.

Lemma creator_hit Facades rootName version goType id w objValue :
  objectCache (root w) !! ObjectKey rootName version id = Some objValue →
  creator Facades rootName version goType id w = (Return (Ok objValue), w).
Proof.
  unfold creator. rewrite locks_cancel.
  change (objectCache (root (RLock w))) with (objectCache (root w)).
  by intros ->.
Qed.

(** The closure on a cache miss, once the registry has handed out the
    factory. *)
Lemma creator_miss Facades rootName version goType id w factory :
  objectCache (root w) !! ObjectKey rootName version id = None →
  GetFactory Facades rootName version = Ok factory →
  creator Facades rootName version goType id w
  = let res := factory (apiRoot_facadeContext (root (Lock w)) id)
                       (length (calls w)) in
    let w4 := logCall (Lock w)
                (MkInvocation (ObjectKey rootName version id) goType res) in
    match res with
    | Err err => (Return (Err err), Unlock w4)
    | Ok obj =>
        match checkType rootName version goType obj with
        | Panic => (Panic, Unlock w4)
        | Return (Err err) => (Return (Err err), Unlock w4)
        | Return (Ok objValue) =>
            (Return (Ok objValue),
             Unlock (setCache w4
                       (<[ObjectKey rootName version id := objValue]>
                          (objectCache (root w4)))))
        end
    end.
Proof.
  unfold creator. rewrite locks_cancel.
  change (objectCache (root (RLock w))) with (objectCache (root w)).
  change (objectCache (root (Lock w))) with (objectCache (root w)).
  by intros -> ->.
Qed.

(** C4: when the factory run for a cache miss returns an error, the
    creator returns that very error, the root (and with it the object
    cache) is as it was before the call, and the next resolution of the
    same key finds the cache empty and invokes the factory once more. *)
Theorem creator_factory_error Facades rootName version goType id w factory err :
  writer (objectMutex (root w)) = false →
  objectCache (root w) !! ObjectKey rootName version id = None →
  GetFactory Facades rootName version = Ok factory →
  factory (apiRoot_facadeContext (root (Lock w)) id) (length (calls w)) = Err err →
  let first := creator Facades rootName version goType id w in
  let second := creator Facades rootName version goType id first.2 in
  first.1 = Return (Err err)
  ∧ root first.2 = root w
  ∧ objectCache (root first.2) !! ObjectKey rootName version id = None
  ∧ calls first.2
    = calls w ++ [MkInvocation (ObjectKey rootName version id) goType (Err err)]
  ∧ calls second.2
    = calls first.2
      ++ [MkInvocation (ObjectKey rootName version id) goType
            (factory (apiRoot_facadeContext (root (Lock w)) id)
                     (S (length (calls w))))].
Proof.
  intros Hfree Hmiss Hfac Herr first second.
  assert (Hfirst : first
    = (Return (Err err),
       Unlock (logCall (Lock w)
                 (MkInvocation (ObjectKey rootName version id) goType (Err err))))).
  { subst first. rewrite (creator_miss _ _ _ _ _ _ _ Hmiss Hfac). cbv zeta.
    by rewrite Herr. }
  subst second. clearbody first.
  assert (Hroot : root first.2 = root w).
  { rewrite Hfirst. apply (Unlock_Lock_root w Hfree). }
  assert (Hcalls : calls first.2
    = calls w ++ [MkInvocation (ObjectKey rootName version id) goType (Err err)])
    by (by rewrite Hfirst).
  split; [by rewrite Hfirst|]. split; [done|].
  split; [by rewrite Hroot|]. split; [done|].
  rewrite (creator_miss _ _ _ _ _ first.2 factory);
    [|by rewrite Hroot|done].
  cbv zeta. rewrite (Lock_root _ _ Hroot), Hcalls, length_app.
  cbn [length].
  replace (length (calls w) + 1) with (S (length (calls w))) by lia.
  repeat case_match; cbn [snd Unlock logCall setMutex setCache calls root];
    change (calls (Lock first.2)) with (calls first.2); by rewrite Hcalls.
Qed.

(** C5: when the object a factory returns has a runtime type that is
    not assignable to the declared type, the creator returns (it does
    not panic) an error value that names the facade, its version, the
    declared type and the type returned, and the root, the object cache
    included, is left as it was. *)
Theorem creator_type_mismatch Facades rootName version goType id w factory o :
  writer (objectMutex (root w)) = false →
  objectCache (root w) !! ObjectKey rootName version id = None →
  GetFactory Facades rootName version = Ok factory →
  factory (apiRoot_facadeContext (root (Lock w)) id) (length (calls w))
  = Ok (Some o) →
  AssignableTo (obj_type o) goType = false →
  let res := creator Facades rootName version goType id w in
  res.1 = Return (Err (Errorf_internal rootName version (TypeString goType)
                         (TypeString (obj_type o))))
  ∧ root res.2 = root w
  ∧ objectCache (root res.2) !! ObjectKey rootName version id = None.
Proof.
  intros Hfree Hmiss Hfac Hobj Hty res. subst res.
  rewrite (creator_miss _ _ _ _ _ _ _ Hmiss Hfac). cbv zeta.
  rewrite Hobj. unfold checkType. cbn [val_type]. rewrite Hty.
  cbn [negb fst snd].
  split; [done|].
  pose proof (Unlock_Lock_root w Hfree) as Hroot.
  split; [exact Hroot|].
  change (objectCache (root (Unlock (Lock w))) !! ObjectKey rootName version id = None).
  by rewrite Hroot.
Qed.

End CreatorProperties.

Lemma creator_factory_error_witness :
  let w := Demo.freshWorld (MachineTag "0") in
  let first := creator Demo.Facades "Storage" 1 "*storage.API" "" w in
  first.1 = Return (Err (OtherError "permission denied"))
  ∧ root first.2 = root w
  ∧ length (calls first.2) = 1.
Proof.
  intros w first.
  destruct (creator_factory_error Demo.Facades "Storage" 1
              ("*storage.API" : @rtype Demo.reflection) "" w
              Demo.storageFactory (OtherError "permission denied"))
    as (H1 & H2 & _ & H4 & _); [reflexivity..|].
  split; [exact H1|]. split; [exact H2|].
  fold first in H4. by rewrite H4.
Defined.

Lemma creator_type_mismatch_witness :
  let w := Demo.freshWorld (UserTag "admin" "local") in
  let res := creator Demo.Facades "Skewed" 1 "*storage.API" "" w in
  res.1 = Return (Err (Errorf_internal "Skewed" 1 "*storage.API" "*logger.LoggerAPI"))
  ∧ root res.2 = root w.
Proof.
  intros w res.
  destruct (creator_type_mismatch Demo.Facades "Skewed" 1
              ("*storage.API" : @rtype Demo.reflection) "" w
              Demo.loggerFactory (MkObj 0 "*logger.LoggerAPI"))
    as (H1 & H2 & _); [reflexivity..|].
  exact (conj H1 H2).
Defined.

(** ** The anonymous root *)

Section AnonRootProperties.

Context `{Backend} `{AdminSurface}.
Implicit Types (r : anonRoot) (api : Api).

Lemma eqb_Admin rootName :
  negb (String.eqb rootName "Admin") = true ↔ rootName ≠ "Admin".
Proof.
  rewrite negb_true_iff. split.
  - intros Hne ->. by rewrite String.eqb_refl in Hne.
  - intros Hne. by apply String.eqb_neq.
Qed.

Lemma anonRoot_FindMethod_other r rootName version methodName :
  rootName ≠ "Admin" →
  anonRoot_FindMethod r rootName version methodName
  = Return (Err (CallNotImplementedError rootName version "")).
Proof.
  intros Hne%eqb_Admin. unfold anonRoot_FindMethod. by rewrite Hne.
Qed.

Lemma anonRoot_FindMethod_Admin r version methodName :
  anonRoot_FindMethod r "Admin" version methodName
  = match adminAPIs r !! version with
    | Some api => Value_FindMethod api "Admin" 0 methodName
    | None =>
        Return (Err (RequestError CodeNotSupported
          "this version of Juju does not support login from old clients"))
    end.
Proof. reflexivity. Qed.

(** C2: anonRoot.FindMethod fails with "call not implemented" for
    every root name other than "Admin", whatever the version and the
    method name; for "Admin" with a version that has an entry in
    adminAPIs it answers what that entry's implementation object
    answers; for "Admin" with a version that has no entry it fails with
    a request error carrying the "not supported" code, which is of
    another kind than "call not implemented". *)
Theorem anonRoot_FindMethod_cases r rootName version methodName :
  (rootName ≠ "Admin" →
     ∃ err, anonRoot_FindMethod r rootName version methodName = Return (Err err)
            ∧ err = CallNotImplementedError rootName version ""
            ∧ kindOf err = KindCallNotImplemented)
  ∧ (∀ api, rootName = "Admin" → adminAPIs r !! version = Some api →
       anonRoot_FindMethod r rootName version methodName
       = Value_FindMethod api rootName 0 methodName)
  ∧ (rootName = "Admin" → adminAPIs r !! version = None →
       ∃ err, anonRoot_FindMethod r rootName version methodName = Return (Err err)
              ∧ err = RequestError CodeNotSupported
                        "this version of Juju does not support login from old clients"
              ∧ kindOf err = KindRequestError
              ∧ kindOf err ≠ KindCallNotImplemented).
Proof.
  split; [|split].
  - intros Hne. eexists. split; [by apply anonRoot_FindMethod_other|done].
  - intros api -> Hin. by rewrite anonRoot_FindMethod_Admin, Hin.
  - intros -> Hout. eexists. rewrite anonRoot_FindMethod_Admin, Hout. done.
Qed.

(** C10: for a version [v] with an entry in adminAPIs, the method name
    is resolved against that entry's implementation object with the
    version argument fixed to 0.  The client's [v] selects the object
    and nothing else: two versions, even on two roots, that select the
    same object give the same answer for every method name. *)
Theorem anonRoot_FindMethod_version_zero r v methodName api :
  adminAPIs r !! v = Some api →
  anonRoot_FindMethod r "Admin" v methodName
  = Value_FindMethod api "Admin" 0 methodName
  ∧ ∀ r' v', adminAPIs r' !! v' = Some api →
      anonRoot_FindMethod r' "Admin" v' methodName
      = anonRoot_FindMethod r "Admin" v methodName.
Proof.
  intros Hin. rewrite anonRoot_FindMethod_Admin, Hin. split; [done|].
  intros r' v' Hin'. by rewrite anonRoot_FindMethod_Admin, Hin'.
Qed.

End AnonRootProperties.

Lemma anonRoot_FindMethod_cases_witness :
  anonRoot_FindMethod Demo.anon "Logger" 1 "Log"
  = Return (Err (CallNotImplementedError "Logger" 1 ""))
  ∧ anonRoot_FindMethod Demo.anon "Admin" 3 "Login"
    = Return (Ok ("admin.v3", "Login"))
  ∧ anonRoot_FindMethod Demo.anon "Admin" 2 "Login"
    = Return (Err (RequestError "not supported"
        "this version of Juju does not support login from old clients")).
Proof.
  split; [|split].
  - destruct (anonRoot_FindMethod_cases Demo.anon "Logger" 1 "Log")
      as [Hother _].
    destruct Hother as (err & -> & -> & _); [done|reflexivity].
  - destruct (anonRoot_FindMethod_cases Demo.anon "Admin" 3 "Login")
      as (_ & Hin & _).
    rewrite (Hin "admin.v3"); reflexivity.
  - destruct (anonRoot_FindMethod_cases Demo.anon "Admin" 2 "Login")
      as (_ & _ & Hout).
    destruct Hout as (err & -> & -> & _); reflexivity.
Defined.

Lemma anonRoot_FindMethod_version_zero_witness :
  anonRoot_FindMethod Demo.anon "Admin" 3 "Login"
  = Value_FindMethod ("admin.v3" : @Api Demo.admin) "Admin" 0 "Login".
Proof.
  destruct (anonRoot_FindMethod_version_zero Demo.anon 3 "Login"
              ("admin.v3" : @Api Demo.admin)) as [Hzero _]; [reflexivity|].
  exact Hzero.
Defined.

(** ** Authorisation predicates *)

Section AuthProperties.

Context `{Backend} `{AdminSurface}.
Implicit Types (r : apiHandler) (e : Entity) (tag : names_Tag).

Lemma GetAuthTag_entity r e : entity r = Some e → GetAuthTag r = Return (Tag e).
Proof. unfold GetAuthTag. by intros ->. Qed.

Lemma GetAuthTag_nil r : entity r = None → GetAuthTag r = Panic.
Proof. unfold GetAuthTag. by intros ->. Qed.

(** C7, as amended: on a handler whose entity is set, AuthMachineAgent,
    AuthUnitAgent and AuthClient return (without error or panic) true
    when the kind of the entity's tag is machine, unit and user
    respectively, and false for every other kind. *)
Theorem Auth_kind r e :
  entity r = Some e →
  AuthMachineAgent r = Return (bool_decide (Kind (Tag e) = "machine"))
  ∧ AuthUnitAgent r = Return (bool_decide (Kind (Tag e) = "unit"))
  ∧ AuthClient r = Return (bool_decide (Kind (Tag e) = "user")).
Proof.
  intros He. unfold AuthMachineAgent, AuthUnitAgent, AuthClient.
  rewrite (GetAuthTag_entity _ _ He).
  by destruct (Tag e).
Qed.

(** C8: on a handler whose entity is set, AuthOwner(tag) returns true
    when [tag] is the entity's own tag and false for every other tag,
    a tag of the same kind with another identifier included. *)
Theorem AuthOwner_exact r e tag :
  entity r = Some e →
  AuthOwner r tag = Return (bool_decide (tag = Tag e))
  ∧ (AuthOwner r tag = Return true ↔ tag = Tag e)
  ∧ (tag ≠ Tag e → AuthOwner r tag = Return false).
Proof.
  intros He. unfold AuthOwner. rewrite He.
  assert (Hflip : bool_decide (Tag e = tag) = bool_decide (tag = Tag e))
    by (apply bool_decide_ext; split; congruence).
  rewrite Hflip. split; [done|]. split.
  - split.
    + intros [= Hd]. by apply bool_decide_eq_true in Hd.
    + intros ->. by rewrite bool_decide_eq_true_2.
  - intros Hne. by rewrite bool_decide_eq_false_2.
Qed.

End AuthProperties.

Lemma Auth_kind_witness :
  AuthMachineAgent (Demo.loggedIn (MachineTag "0")) = Return true
  ∧ AuthUnitAgent (Demo.loggedIn (MachineTag "0")) = Return false
  ∧ AuthClient (Demo.loggedIn (MachineTag "0")) = Return false.
Proof.
  apply (Auth_kind (Demo.loggedIn (MachineTag "0")) (MkEntity (MachineTag "0"))).
  reflexivity.
Defined.

Lemma AuthOwner_exact_witness :
  AuthOwner (Demo.loggedIn (UnitTag "mysql/0")) (UnitTag "mysql/0") = Return true
  ∧ AuthOwner (Demo.loggedIn (UnitTag "mysql/0")) (UnitTag "mysql/1") = Return false.
Proof.
  split.
  - apply (AuthOwner_exact (Demo.loggedIn (UnitTag "mysql/0"))
             (MkEntity (UnitTag "mysql/0")) (UnitTag "mysql/0")); reflexivity.
  - apply (AuthOwner_exact (Demo.loggedIn (UnitTag "mysql/0"))
             (MkEntity (UnitTag "mysql/0")) (UnitTag "mysql/1")); [reflexivity|].
    discriminate.
Defined.

(** C7 as stated fails: on the handler newAPIHandler builds, which has
    no entity, the three predicates panic instead of returning false. *)
Lemma Auth_unauthenticated_panics :
  newAPIHandler Demo.srv () () "" "localhost:17070" = Ok Demo.anonHandler
  ∧ entity Demo.anonHandler = None
  ∧ AuthMachineAgent Demo.anonHandler = Panic
  ∧ AuthUnitAgent Demo.anonHandler = Panic
  ∧ AuthClient Demo.anonHandler = Panic
  ∧ AuthMachineAgent Demo.anonHandler ≠ Return false.
Proof.
  split; [vm_compute; reflexivity|].
  do 4 (split; [reflexivity|]).
  discriminate.
Qed.

(** ** Facade discovery *)

Section DescribeProperties.

Context `{Reflection} `{Backend}.

Lemma assignFacade_zero facade fv :
  assignFacade facade fv = toFacadeVersions facade.
Proof. reflexivity. Qed.

Lemma DescribeFacades_loop_spec facades :
  ∀ i filled,
    length filled = i →
    DescribeFacades_loop i facades
      (filled ++ replicate (length facades) (params.MkFacadeVersions "" []))
    = filled ++ (toFacadeVersions <$> facades).
Proof.
  induction facades as [|facade rest IH]; intros i filled Hlen; [done|].
  simpl. subst i.
  replace (length filled) with (length filled + 0) at 2 by lia.
  rewrite alter_app_r. simpl.
  rewrite assignFacade_zero.
  rewrite (cons_middle (toFacadeVersions facade) filled), (assoc (++)).
  rewrite (IH (S (length filled)) (filled ++ [toFacadeVersions facade])).
  - rewrite <-(assoc (++)). done.
  - rewrite length_app. simpl. lia.
Qed.

(** C9: DescribeFacades is a function of the registry alone (it takes
    no session, so it neither changes state nor asks for
    authorisation) and its answer is the registry's enumeration, entry
    by entry and in the same order, each entry turned into its (name,
    versions) pair. *)
Theorem DescribeFacades_enumeration (Facades : FacadeRegistry) :
  DescribeFacades Facades = toFacadeVersions <$> List Facades
  ∧ length (DescribeFacades Facades) = length (List Facades)
  ∧ ∀ i facade, List Facades !! i = Some facade →
      DescribeFacades Facades !! i
      = Some (params.MkFacadeVersions (common.Name facade) (common.Versions facade)).
Proof.
  assert (Heq : DescribeFacades Facades = toFacadeVersions <$> List Facades).
  { unfold DescribeFacades.
    apply (DescribeFacades_loop_spec (List Facades) 0 []). done. }
  rewrite Heq. split; [done|]. split.
  - by rewrite length_fmap.
  - intros i facade Hi. by rewrite list_lookup_fmap, Hi.
Qed.

End DescribeProperties.

(** ** Lazy construction under concurrent callers *)

Section ConcurrentProperties.

Context `{Reflection} `{Backend}.
Implicit Types (Facades : FacadeRegistry) (c : config) (g : goroutine)
               (w : world) (f : goroutine → nat).

(** *** Tallies over the pool *)

Lemma tally_insert f (l : list goroutine) i g g' :
  l !! i = Some g →
  tally f (<[i := g']> l) + f g = tally f l + f g'.
Proof.
  unfold tally. revert i.
  induction l as [|x l IH]; intros [|i] Hi; simplify_eq/=; [lia|].
  specialize (IH i Hi). lia.
Qed.

Lemma tally_lookup f (l : list goroutine) i g :
  l !! i = Some g → f g ≤ tally f l.
Proof.
  unfold tally. revert i.
  induction l as [|x l IH]; intros [|i] Hi; simplify_eq/=; [lia|].
  specialize (IH i Hi). lia.
Qed.

Lemma tally_two f (l : list goroutine) i j g g' :
  l !! i = Some g → l !! j = Some g' → i ≠ j →
  f g + f g' ≤ tally f l.
Proof.
  revert i j.
  induction l as [|x l IH]; intros [|i] [|j] Hi Hj Hne; simplify_eq/=.
  - pose proof (tally_lookup f l j g' Hj). unfold tally in *.
    rewrite fmap_cons. simpl. lia.
  - pose proof (tally_lookup f l i g Hi). unfold tally in *.
    rewrite fmap_cons. simpl. lia.
  - assert (i ≠ j) as Hne' by congruence.
    specialize (IH i j Hi Hj Hne'). unfold tally in *.
    rewrite fmap_cons. simpl. lia.
Qed.

Lemma tally_pos f (l : list goroutine) :
  0 < tally f l → ∃ i g, l !! i = Some g ∧ 0 < f g.
Proof.
  unfold tally.
  induction l as [|x l IH]; [simpl; lia|].
  rewrite fmap_cons. simpl. intros Hpos.
  destruct (decide (0 < f x)) as [Hx|Hx].
  - by exists 0, x.
  - destruct IH as (i & g & Hi & Hg); [lia|]. by exists (S i), g.
Qed.

(** *** Steps *)

Lemma step_inv Facades i c c' :
  step Facades i c = Some c' →
  ∃ g p w, pool c !! i = Some g
           ∧ goStep Facades g (shared c) = Some (p, w)
           ∧ c' = {| shared := w; pool := <[i := setPc g p]> (pool c) |}.
Proof.
  unfold step.
  destruct (pool c !! i) as [g|] eqn:Hg; [|done].
  destruct (goStep Facades g (shared c)) as [[p w]|] eqn:Hstep; [|done].
  intros [= <-]. by exists g, p, w.
Qed.

Lemma lockInv_start st res auth cs : lockInv (start st res auth cs).
Proof.
  unfold lockInv, start, tally. simpl.
  assert (Hz : ∀ f, (∀ x, f (spawn x) = 0) → sum_list (f <$> (spawn <$> cs)) = 0).
  { intros f Hf. induction cs as [|x l IH]; [done|].
    rewrite !fmap_cons. simpl. by rewrite Hf, IH. }
  rewrite !Hz by done. done.
Qed.

Lemma lockInv_step Facades i c c' :
  lockInv c → step Facades i c = Some c' → lockInv c'.
Proof.
  intros (Hr & Hw & Hrw) (g & p & w & Hg & Hstep & ->)%step_inv.
  unfold lockInv. simpl.
  pose proof (tally_insert (λ g, flag (inRead g)) (pool c) i g (setPc g p) Hg) as Hr'.
  pose proof (tally_insert (λ g, flag (inWrite g)) (pool c) i g (setPc g p) Hg) as Hw'.
  set (R := tally (λ g, flag (inRead g))) in *.
  set (W := tally (λ g, flag (inWrite g))) in *.
  cbv beta in Hr', Hw'.
  destruct (objectMutex (root (shared c))) as [rd wr] eqn:Hm.
  destruct g as [s a q]. unfold goStep in Hstep.
  unfold inRead, inWrite in Hr', Hw'. unfold setPc in *. simpl in *.
  rewrite Hm in Hstep.
  destruct q; simpl in *; repeat case_match; simplify_eq/=; rewrite ?Hm; simpl;
    repeat split; intros; simplify_eq/=; try lia;
    try (specialize (Hrw eq_refl); lia).
  destruct wr; simpl in *; lia.
Qed.

Lemma flag_le b : flag b ≤ 1.
Proof. destruct b; simpl; lia. Qed.

(** Mutual exclusion: at most one goroutine is between Lock and
    Unlock. *)
Lemma unique_writer c i j g g' :
  lockInv c →
  pool c !! i = Some g → pool c !! j = Some g' →
  inWrite g = true → inWrite g' = true → i = j.
Proof.
  intros (_ & Hw & _) Hi Hj Hg Hg'.
  destruct (decide (i = j)) as [|Hne]; [done|].
  pose proof (tally_two (λ g, flag (inWrite g)) _ _ _ _ _ Hi Hj Hne) as Htwo.
  simpl in Htwo. rewrite Hg, Hg', <-Hw in Htwo.
  pose proof (flag_le (writer (objectMutex (root (shared c))))). simpl in *. lia.
Qed.

(** No goroutine holds a read lock while one holds the write lock. *)
Lemma readers_excluded c i j g g' :
  lockInv c →
  pool c !! i = Some g → pool c !! j = Some g' →
  inWrite g = true → inRead g' = false.
Proof.
  intros (Hr & Hw & Hrw) Hi Hj Hg.
  pose proof (tally_lookup (λ g, flag (inWrite g)) _ _ _ Hi) as Hone.
  simpl in Hone. rewrite Hg, <-Hw in Hone.
  destruct (writer (objectMutex (root (shared c)))); simpl in Hone; [|lia].
  specialize (Hrw eq_refl). rewrite Hr in Hrw.
  pose proof (tally_lookup (λ g, flag (inRead g)) _ _ _ Hj) as Hzero.
  simpl in Hzero. rewrite Hrw in Hzero.
  destruct (inRead g'); simpl in Hzero; [lia|done].
Qed.

Lemma goStep_inWrite Facades g w :
  inWrite g = true → is_Some (goStep Facades g w).
Proof.
  unfold inWrite, goStep. destruct (at_pc g); intros; try done;
    repeat case_match; eauto.
Qed.

Lemma goStep_inRead Facades g w :
  inRead g = true → is_Some (goStep Facades g w).
Proof.
  unfold inRead, goStep. destruct (at_pc g); intros; try done;
    repeat case_match; eauto.
Qed.

Lemma step_enabled Facades i c g :
  pool c !! i = Some g → is_Some (goStep Facades g (shared c)) →
  ∃ c', step Facades i c = Some c'.
Proof.
  intros Hi [[p w] Hstep]. unfold step. rewrite Hi, Hstep. eauto.
Qed.

Lemma allFinished_false c :
  allFinished c = false → ∃ i g, pool c !! i = Some g ∧ finished g = false.
Proof.
  unfold allFinished. generalize (pool c) as l.
  induction l as [|x l IH]; simpl; [done|].
  destruct (finished x) eqn:Hx; simpl.
  - intros (i & g & Hi & Hg)%IH. by exists (S i), g.
  - intros _. by exists 0, x.
Qed.

(** No deadlock: while a goroutine has not returned, some goroutine can
    take a step. *)
Lemma progress Facades c :
  lockInv c → allFinished c = false → ∃ i c', step Facades i c = Some c'.
Proof.
  intros (Hr & Hw & Hrw) (i & g & Hi & Hg)%allFinished_false.
  destruct (writer (objectMutex (root (shared c)))) eqn:Hwr.
  { destruct (tally_pos (λ g, flag (inWrite g)) (pool c)) as (j & g' & Hj & Hg').
    { rewrite <-Hw. simpl. lia. }
    exists j. eapply step_enabled; [done|]. apply goStep_inWrite.
    destruct (inWrite g'); [done|simpl in Hg'; lia]. }
  destruct (readers (objectMutex (root (shared c)))) as [|n] eqn:Hrd.
  - exists i. eapply step_enabled; [done|].
    unfold goStep. rewrite Hwr, Hrd. unfold finished in Hg.
    destruct (at_pc g); try done; repeat case_match; eauto.
  - destruct (tally_pos (λ g, flag (inRead g)) (pool c)) as (j & g' & Hj & Hg').
    { rewrite <-Hr. lia. }
    exists j. eapply step_enabled; [done|]. apply goStep_inRead.
    destruct (inRead g'); [done|simpl in Hg'; lia].
Qed.

(** Every step uses up one of the steps the goroutines have left. *)
Lemma step_remaining Facades i c c' :
  step Facades i c = Some c' → remaining c' < remaining c.
Proof.
  intros (g & p & w & Hg & Hstep & ->)%step_inv. unfold remaining. simpl.
  pose proof (tally_insert rank (pool c) i g (setPc g p) Hg) as Hrk.
  set (T := tally rank) in *.
  destruct g as [s a q]. unfold goStep in Hstep. unfold rank, setPc in *.
  simpl in *.
  destruct q; simpl in *; repeat case_match; simplify_eq/=; lia.
Qed.

(** *** What the goroutines know *)

Lemma accepted_checked g obj :
  accepted (MkInvocation (objKey g) (cr_goType (caller g)) (Ok obj))
  = match checkType (cr_rootName (caller g)) (cr_version (caller g))
            (cr_goType (caller g)) obj with
    | Return (Ok _) => true
    | _ => false
    end.
Proof. reflexivity. Qed.

(** A step leaves the cache and the log alone unless it is taken
    between Lock and Unlock. *)
Lemma goStep_quiet Facades g w p w' :
  inWrite g = false → goStep Facades g w = Some (p, w') →
  objectCache (root w') = objectCache (root w) ∧ calls w' = calls w.
Proof.
  unfold inWrite, goStep.
  destruct (at_pc g); intros; try done; repeat case_match; by simplify_eq/=.
Qed.

(** The cache and the log only grow. *)
Lemma goStep_grows Facades g w p w' :
  localInv Facades w g → goStep Facades g w = Some (p, w') →
  objectCache (root w) ⊆ objectCache (root w')
  ∧ ∀ inv, inv ∈ calls w → inv ∈ calls w'.
Proof.
  unfold localInv, goStep.
  destruct (at_pc g); intros Hloc Hstep; repeat case_match; simplify_eq/=;
    try done.
  - split; [done|]. intros inv ?. apply elem_of_app. by left.
  - split; [done|]. intros inv ?. apply elem_of_app. by left.
  - split; [|done]. apply insert_subseteq. by destruct Hloc.
Qed.

Lemma localInv_ext Facades w w' g :
  objectCache (root w') = objectCache (root w) → calls w' = calls w →
  localInv Facades w g → localInv Facades w' g.
Proof.
  unfold localInv, resultInv. intros -> ->. done.
Qed.

Lemma localInv_frame Facades w w' g :
  inWrite g = false →
  objectCache (root w) ⊆ objectCache (root w') →
  (∀ inv, inv ∈ calls w → inv ∈ calls w') →
  localInv Facades w g → localInv Facades w' g.
Proof.
  unfold inWrite, localInv, resultInv. intros Hnw Hcache Hcalls.
  destruct (at_pc g) as [| |[v|]| | | | | | | |[[v|e]|]]; try done.
  - intros Hv. by eapply lookup_weaken.
  - intros Hv. by eapply lookup_weaken.
  - intros [?|(inv & ? & ?)]; [by left|right]. exists inv. auto.
  - intros [?|(inv & ? & ?)]; [by left|right]. exists inv. auto.
Qed.

(** The goroutine that steps arrives with what it needs to know. *)
Lemma localInv_own Facades w g p w' :
  localInv Facades w g → goStep Facades g w = Some (p, w') →
  localInv Facades w' (setPc g p).
Proof.
  destruct g as [s a q]. unfold localInv, resultInv, goStep, setPc, objKey.
  simpl.
  destruct q as [| |[v|]| | | | | | | |[[v|e]|]]; intros Hloc Hstep;
    repeat case_match; simplify_eq/=; try done; eauto.
  - destruct Hloc. split; [done|]. by eexists.
  - right. eexists. split; [apply elem_of_app; right; by apply list_elem_of_singleton|].
    done.
  - destruct Hloc as [? [l Hl]]. split; [done|]. eauto.
  - destruct Hloc as [_ [l Hl]]. right. eexists.
    split; [rewrite Hl; apply elem_of_app; right; by apply list_elem_of_singleton|].
    repeat split. unfold accepted. simpl.
    match goal with Hc : checkType _ _ _ _ = _ |- _ => by rewrite Hc end.
  - destruct Hloc as [_ [l Hl]]. right. eexists.
    split; [rewrite Hl; apply elem_of_app; right; by apply list_elem_of_singleton|].
    repeat split. unfold accepted. simpl.
    match goal with Hc : checkType _ _ _ _ = _ |- _ => by rewrite Hc end.
  - apply lookup_insert_eq.
Qed.

Lemma locals_step Facades i c c' :
  lockInv c →
  (∀ j g, pool c !! j = Some g → localInv Facades (shared c) g) →
  step Facades i c = Some c' →
  ∀ j g, pool c' !! j = Some g → localInv Facades (shared c') g.
Proof.
  intros Hlock Hloc (g & p & w & Hg & Hstep & ->)%step_inv j g'. simpl.
  destruct (decide (j = i)) as [->|Hne].
  - rewrite list_lookup_insert_eq by (by eapply lookup_lt_Some).
    intros [= <-]. eapply localInv_own; eauto.
  - rewrite list_lookup_insert_ne by done. intros Hj.
    destruct (inWrite g) eqn:Hw.
    + destruct (goStep_grows _ _ _ _ _ (Hloc _ _ Hg) Hstep) as [Hc Hl].
      eapply localInv_frame; eauto.
      destruct (inWrite g') eqn:Hw'; [|done].
      by destruct Hne; eapply (unique_writer c).
    + destruct (goStep_quiet _ _ _ _ _ Hw Hstep) as [Hc Hl].
      eapply localInv_ext; eauto.
Qed.

(** *** The log against the cache *)

Lemma pending_inWrite g : pending g = true → inWrite g = true.
Proof. unfold pending, inWrite. by destruct (at_pc g). Qed.

Lemma failedFor_snoc k l inv :
  failedFor k l → (inv_key inv = k → accepted inv = false) →
  failedFor k (l ++ [inv]).
Proof.
  intros Hl Hinv x [Hx|Hx%list_elem_of_singleton]%elem_of_app; [by apply Hl|].
  by subst.
Qed.

Lemma logInv_quiet i c g p w :
  pool c !! i = Some g → pending g = false →
  objectCache (root w) = objectCache (root (shared c)) →
  calls w = calls (shared c) →
  logInv c → logInv {| shared := w; pool := <[i := setPc g p]> (pool c) |}.
Proof.
  intros Hi Hp Hc Hl Hinv k. specialize (Hinv k). simpl. rewrite Hc, Hl.
  destruct (objectCache (root (shared c)) !! k); [done|].
  destruct Hinv as [?|(l & inv & ? & ? & j & gj & Hj & ? & ?)]; [by left|right].
  exists l, inv. do 2 (split; [done|]). exists j, gj. split; [|done].
  rewrite list_lookup_insert_ne; [done|]. intros ->. congruence.
Qed.

Lemma logInv_factory i c g p factory res :
  lockInv c → pool c !! i = Some g → at_pc g = AtFactory factory →
  objectCache (root (shared c)) !! objKey g = None →
  p = match res with
      | Ok obj => AtCheck obj
      | Err err => AtUnlock (Return (Err err))
      end →
  logInv c →
  logInv {| shared := logCall (shared c)
                        (MkInvocation (objKey g) (cr_goType (caller g)) res);
            pool := <[i := setPc g p]> (pool c) |}.
Proof.
  intros Hlock Hi Hpc Hmiss -> Hinv k. specialize (Hinv k). simpl.
  assert (Hnone : ∀ j gj, pool c !! j = Some gj → pending gj = true → False).
  { intros j gj Hj Hgj.
    assert (j = i) as ->.
    { eapply (unique_writer c); eauto using pending_inWrite.
      unfold inWrite. by rewrite Hpc. }
    simplify_eq. unfold pending in Hgj. by rewrite Hpc in Hgj. }
  destruct (objectCache (root (shared c)) !! k) eqn:Hk.
  - destruct Hinv as (l1 & inv & l2 & Hl & ? & ? & ? & Hl2).
    exists l1, inv, (l2 ++ [MkInvocation (objKey g) (cr_goType (caller g)) res]).
    rewrite Hl, <-(assoc (++)). simpl. do 4 (split; [done|]).
    intros x [Hx|Hx%list_elem_of_singleton]%elem_of_app; [by apply Hl2|].
    subst. simpl. congruence.
  - destruct Hinv as [Hfail|(l & inv & ? & ? & j & gj & Hj & ? & ?)];
      [|by destruct (Hnone j gj)].
    destruct (decide (objKey g = k)) as [<-|Hne].
    + destruct res as [obj|err].
      * right. eexists _, _. do 2 (split; [done|]).
        exists i, (setPc g (AtCheck obj)).
        rewrite list_lookup_insert_eq by (by eapply lookup_lt_Some).
        done.
      * left. by apply failedFor_snoc.
    + left. by apply failedFor_snoc.
Qed.

Lemma logInv_check i c g p obj l :
  lockInv c → pool c !! i = Some g → at_pc g = AtCheck obj →
  calls (shared c) = l ++ [MkInvocation (objKey g) (cr_goType (caller g)) (Ok obj)] →
  p = match checkType (cr_rootName (caller g)) (cr_version (caller g))
              (cr_goType (caller g)) obj with
      | Panic => AtUnlock Panic
      | Return (Err err) => AtUnlock (Return (Err err))
      | Return (Ok objValue) => AtStore objValue
      end →
  logInv c →
  logInv {| shared := shared c; pool := <[i := setPc g p]> (pool c) |}.
Proof.
  intros Hlock Hi Hpc Hcalls -> Hinv k. specialize (Hinv k). simpl.
  destruct (objectCache (root (shared c)) !! k) eqn:Hk; [done|].
  destruct Hinv as [Hfail|(l' & inv & Hl' & Hfail & j & gj & Hj & Hkey & Hgj)];
    [by left|].
  assert (j = i) as ->.
  { eapply (unique_writer c); eauto using pending_inWrite.
    unfold inWrite. by rewrite Hpc. }
  assert (gj = g) as -> by congruence. subst k.
  rewrite Hcalls in Hl'. apply app_inj_tail in Hl' as [-> <-].
  pose proof (accepted_checked g obj) as Hacc.
  destruct (checkType _ _ _ obj) as [[objValue|err]|] eqn:Hcheck.
  - right. exists l', (MkInvocation (objKey g) (cr_goType (caller g)) (Ok obj)).
    do 2 (split; [done|]). exists i, (setPc g (AtStore objValue)).
    rewrite list_lookup_insert_eq by (by eapply lookup_lt_Some). done.
  - left. rewrite Hcalls. by apply failedFor_snoc.
  - left. rewrite Hcalls. by apply failedFor_snoc.
Qed.

Lemma logInv_store i c g objValue l obj :
  lockInv c → pool c !! i = Some g → at_pc g = AtStore objValue →
  objectCache (root (shared c)) !! objKey g = None →
  calls (shared c) = l ++ [MkInvocation (objKey g) (cr_goType (caller g)) (Ok obj)] →
  checkType (cr_rootName (caller g)) (cr_version (caller g))
    (cr_goType (caller g)) obj = Return (Ok objValue) →
  logInv c →
  logInv {| shared := setCache (shared c)
                        (<[objKey g := objValue]> (objectCache (root (shared c))));
            pool := <[i := setPc g (AtUnlock (Return (Ok objValue)))]> (pool c) |}.
Proof.
  intros Hlock Hi Hpc Hmiss Hcalls Hcheck Hinv k. simpl.
  pose proof (accepted_checked g obj) as Hacc. rewrite Hcheck in Hacc.
  assert (Hmine : ∀ j gj, pool c !! j = Some gj → pending gj = true → gj = g).
  { intros j gj Hj Hgj.
    assert (j = i) as ->; [|congruence].
    eapply (unique_writer c); eauto using pending_inWrite.
    unfold inWrite. by rewrite Hpc. }
  destruct (decide (objKey g = k)) as [<-|Hne].
  - rewrite lookup_insert_eq. specialize (Hinv (objKey g)). rewrite Hmiss in Hinv.
    destruct Hinv as [Hfail|(l' & inv & Hl' & Hfail & _)].
    + rewrite (Hfail (MkInvocation (objKey g) (cr_goType (caller g)) (Ok obj))) in Hacc;
        [done| |done].
      rewrite Hcalls. apply elem_of_app. right. by apply list_elem_of_singleton.
    + rewrite Hcalls in Hl'. apply app_inj_tail in Hl' as [-> <-].
      exists l', (MkInvocation (objKey g) (cr_goType (caller g)) (Ok obj)), [].
      do 4 (split; [done|]). by intros x ?%elem_of_nil.
  - rewrite lookup_insert_ne by done. specialize (Hinv k).
    destruct (objectCache (root (shared c)) !! k); [done|].
    destruct Hinv as [?|(l' & inv & ? & ? & j & gj & Hj & ? & Hgj)]; [by left|].
    destruct Hne. by rewrite <-(Hmine j gj Hj Hgj).
Qed.

Lemma logInv_step Facades i c c' :
  lockInv c →
  (∀ j g, pool c !! j = Some g → localInv Facades (shared c) g) →
  logInv c → step Facades i c = Some c' → logInv c'.
Proof.
  intros Hlock Hloc Hinv (g & p & w & Hg & Hstep & ->)%step_inv.
  specialize (Hloc _ _ Hg). unfold localInv in Hloc.
  destruct (at_pc g) eqn:Hpc.
  5,6: assert (pending g = false) by (unfold pending; by rewrite Hpc).
  1-6, 10: (eapply logInv_quiet; [done|unfold pending; by rewrite Hpc|..|done];
            unfold goStep in Hstep; rewrite Hpc in Hstep;
            repeat case_match; by simplify_eq/=).
  - unfold goStep in Hstep. rewrite Hpc in Hstep. destruct Hloc as [Hmiss _].
    eapply (logInv_factory i c g p factory
              (factory (apiRoot_facadeContext (root (shared c)) (arg_id g))
                       (length (calls (shared c)))))  in Hinv; eauto.
    + by repeat case_match; simplify_eq/=.
    + by repeat case_match; simplify_eq/=.
  - unfold goStep in Hstep. rewrite Hpc in Hstep. destruct Hloc as [Hmiss [l Hl]].
    eapply (logInv_check i c g p obj l) in Hinv; eauto.
    + by repeat case_match; simplify_eq/=.
    + by repeat case_match; simplify_eq/=.
  - unfold goStep in Hstep. rewrite Hpc in Hstep.
    destruct Hloc as (Hmiss & l & obj & Hl & Hcheck). simplify_eq/=.
    by eapply logInv_store.
  - unfold goStep in Hstep. rewrite Hpc in Hstep. done.
Qed.

(** *** Where the logged invocations come from *)

Lemma pool_step_lookup i (l : list goroutine) g p j gj :
  l !! i = Some g → l !! j = Some gj →
  ∃ gj', <[i := setPc g p]> l !! j = Some gj'
         ∧ caller gj' = caller gj ∧ arg_id gj' = arg_id gj.
Proof.
  intros Hi Hj. destruct (decide (j = i)) as [->|Hne].
  - rewrite list_lookup_insert_eq by (by eapply lookup_lt_Some).
    simplify_eq. by eexists.
  - rewrite list_lookup_insert_ne by done. by eexists.
Qed.

Lemma goStep_handles Facades g w p w' :
  goStep Facades g w = Some (p, w') → handles (root w') = handles (root w).
Proof.
  unfold goStep.
  destruct (at_pc g); intros; repeat case_match; by simplify_eq/=.
Qed.

Lemma genuine_step Facades i c c' :
  (∀ j g, pool c !! j = Some g → localInv Facades (shared c) g) →
  genuine Facades c → step Facades i c = Some c' → genuine Facades c'.
Proof.
  intros Hloc Hgen (g & p & w & Hg & Hstep & ->)%step_inv inv. simpl.
  pose proof (goStep_handles _ _ _ _ _ Hstep) as Hhd.
  assert (Hold : inv ∈ calls (shared c) →
    ∃ j gj factory ctx n,
      <[i := setPc g p]> (pool c) !! j = Some gj ∧ objKey gj = inv_key inv
      ∧ cr_goType (caller gj) = inv_goType inv
      ∧ GetFactory Facades (cr_rootName (caller gj)) (cr_version (caller gj))
        = Ok factory
      ∧ inv_result inv = factory ctx n ∧ ctx_id ctx = arg_id gj
      ∧ handles (ctx_r ctx) = handles (root w)).
  { intros (j & gj & factory & ctx & n & Hj & Hkey & ? & ? & ? & ? & ?)%Hgen.
    destruct (pool_step_lookup i _ g p j gj Hg Hj) as (gj' & ? & Hc & Ha).
    exists j, gj', factory, ctx, n. unfold objKey in *. rewrite Hc, Ha, Hhd. done. }
  specialize (Hloc _ _ Hg). unfold localInv in Hloc.
  unfold goStep in Hstep.
  destruct (at_pc g) eqn:Hpc; repeat case_match; simplify_eq/=; try done.
  all: intros [Hin|Hin%list_elem_of_singleton]%elem_of_app; [by apply Hold|].
  all: subst inv.
  all: destruct Hloc as [_ Hfac].
  all: eexists i, _, factory, _, _.
  all: rewrite list_lookup_insert_eq by (by eapply lookup_lt_Some).
  all: done.
Qed.

Lemma dataInv_step Facades i c c' :
  lockInv c → dataInv Facades c → step Facades i c = Some c' →
  dataInv Facades c'.
Proof.
  intros Hlock (Hloc & Hlog & Hgen) Hstep. split; [|split].
  - by eapply locals_step.
  - by eapply logInv_step.
  - by eapply genuine_step.
Qed.

Lemma dataInv_start Facades st res auth cs :
  dataInv Facades (start st res auth cs).
Proof.
  split; [|split].
  - intros j g. unfold start. simpl. rewrite list_lookup_fmap.
    destruct (cs !! j); [|done]. by intros [= <-].
  - intros k. simpl. rewrite lookup_empty. left. by intros inv ?%elem_of_nil.
  - by intros inv ?%elem_of_nil.
Qed.

(** *** Runs *)

Lemma sameCallers_step Facades cs i c c' :
  sameCallers cs c → step Facades i c = Some c' → sameCallers cs c'.
Proof.
  unfold sameCallers.
  intros <- (g & p & w & Hg & Hstep & ->)%step_inv. simpl.
  rewrite list_fmap_insert. apply list_insert_id.
  by rewrite list_lookup_fmap, Hg.
Qed.

Lemma runInv_step Facades hd cs i c c' :
  runInv Facades hd cs c → step Facades i c = Some c' → runInv Facades hd cs c'.
Proof.
  intros (Hlock & Hdata & Hsame & Hhd) Hstep. repeat split.
  1-3: by eapply lockInv_step.
  1-3: by eapply dataInv_step.
  - by eapply sameCallers_step.
  - apply step_inv in Hstep as (g & p & w & Hg & Hstep & ->). simpl.
    by rewrite (goStep_handles _ _ _ _ _ Hstep).
Qed.

Lemma runInv_start Facades st res auth cs :
  runInv Facades (st, res, auth) cs (start st res auth cs).
Proof.
  split; [apply lockInv_start|]. split; [apply dataInv_start|]. split; [|done].
  unfold sameCallers, start. simpl. rewrite <-list_fmap_compose.
  rewrite <-(list_fmap_id cs) at 2. apply list_fmap_ext. by intros j [s a] _.
Qed.

Lemma runInv_run Facades hd cs sched :
  ∀ c, runInv Facades hd cs c → runInv Facades hd cs (run Facades sched c).
Proof.
  induction sched as [|i sched IH]; intros c Hinv; [done|].
  simpl. apply IH. destruct (step Facades i c) eqn:Hstep; [|done].
  by eapply runInv_step.
Qed.

Lemma run_app Facades sched sched' c :
  run Facades (sched ++ sched') c = run Facades sched' (run Facades sched c).
Proof. unfold run. by rewrite foldl_app. Qed.

(** From any configuration on the way the goroutines can all be run to
    their return. *)
Lemma run_to_end Facades c :
  lockInv c → ∃ sched, allFinished (run Facades sched c) = true.
Proof.
  remember (remaining c) as n eqn:Hn. revert c Hn.
  induction (lt_wf n) as [n _ IH]. intros c -> Hlock.
  destruct (allFinished c) eqn:Hfin; [by exists []|].
  destruct (progress Facades c Hlock Hfin) as (i & c' & Hstep).
  destruct (IH (remaining c') (step_remaining _ _ _ _ Hstep) c' eq_refl)
    as [sched Hsched]; [by eapply lockInv_step|].
  exists (i :: sched). simpl. by rewrite Hstep.
Qed.

(** *** What the callers get *)

Lemma allFinished_lookup c j g :
  allFinished c = true → pool c !! j = Some g → ∃ res, at_pc g = Finished res.
Proof.
  unfold allFinished. intros Hall Hj.
  assert (Hg : finished g = true).
  { rewrite forallb_forall in Hall. apply Hall.
    apply list_elem_of_In. by eapply list_elem_of_lookup_2. }
  unfold finished in Hg. destruct (at_pc g); try done. by eexists.
Qed.

Lemma finished_value Facades c j g objValue :
  dataInv Facades c → pool c !! j = Some g →
  at_pc g = Finished (Return (Ok objValue)) →
  objectCache (root (shared c)) !! objKey g = Some objValue.
Proof.
  intros (Hloc & _) Hj Hpc. specialize (Hloc _ _ Hj).
  unfold localInv in Hloc. by rewrite Hpc in Hloc.
Qed.

(** The invocations logged for a key are failures followed by at most
    one more invocation; when the key is cached, that one is there and
    was accepted. *)
Lemma callsFor_shape c k :
  logInv c →
  ∃ failures rest,
    callsFor k c = failures ++ rest
    ∧ (∀ inv, inv ∈ failures → accepted inv = false)
    ∧ length rest ≤ 1
    ∧ (is_Some (objectCache (root (shared c)) !! k) →
       ∃ inv, rest = [inv] ∧ accepted inv = true).
Proof.
  intros Hinv. specialize (Hinv k). unfold callsFor.
  set (P := λ i : invocation, inv_key i = k).
  assert (Hfail : ∀ l, failedFor k l →
            ∀ inv, inv ∈ filter P l → accepted inv = false).
  { intros l Hl inv [? ?]%list_elem_of_filter. by apply Hl. }
  destruct (objectCache (root (shared c)) !! k) as [v|].
  - destruct Hinv as (l1 & inv & l2 & -> & Hkey & Hacc & Hl1 & Hl2).
    exists (filter P l1), [inv]. rewrite filter_app, filter_cons_True by done.
    assert (filter P l2 = []) as ->.
    { apply elem_of_nil_inv. intros x [Hx ?]%list_elem_of_filter.
      by apply (Hl2 x). }
    split; [done|]. split; [by apply Hfail|]. split; [simpl; lia|]. eauto.
  - assert (Hno : is_Some (@None (Value rtype)) →
              ∃ inv, [] = [inv] ∧ accepted inv = true) by (by intros [? ?]).
    destruct Hinv as [Hl|(l & inv & -> & Hl & _)].
    + exists (filter P (calls (shared c))), []. rewrite app_nil_r.
      split; [done|]. split; [by apply Hfail|]. split; [simpl; lia|].
      by intros [? ?].
    + exists (filter P l), (filter P [inv]). rewrite filter_app.
      split; [done|]. split; [by apply Hfail|]. split; [|by intros [? ?]].
      destruct (decide (P inv)).
      * rewrite filter_cons_True by done. simpl. lia.
      * rewrite filter_cons_False by done. simpl. lia.
Qed.

Lemma accepted_last c k l1 inv l2 :
  logInv c → callsFor k c = l1 ++ inv :: l2 → accepted inv = true → l2 = [].
Proof.
  intros (failures & rest & Heq & Hfail & Hlen & _)%(callsFor_shape c k) Hcalls Hacc.
  rewrite Heq in Hcalls.
  destruct l2 as [|x l2 _] using rev_ind; [done|].
  destruct rest as [|y [|? ?]]; simpl in Hlen; [| |lia].
  - rewrite app_nil_r in Hcalls.
    rewrite (Hfail inv) in Hacc; [done|]. rewrite Hcalls. set_solver.
  - rewrite app_comm_cons, (assoc (++)) in Hcalls.
    apply app_inj_tail in Hcalls as [-> _].
    rewrite (Hfail inv) in Hacc; [done|]. set_solver.
Qed.

Lemma checkType_assignable rootName version goType o :
  AssignableTo (obj_type o) goType = true →
  ∃ objValue, checkType rootName version goType (Some o) = Return (Ok objValue).
Proof.
  unfold checkType. simpl. intros ->. simpl.
  destruct (KindIsInterface goType); eauto.
Qed.

(** With reliable constructors every logged invocation for the key was
    accepted. *)
Lemma reliable_accepted Facades hd cs c k inv :
  runInv Facades hd cs c →
  (∀ s id, (s, id) ∈ cs → ObjectKey (cr_rootName s) (cr_version s) id = k →
           reliable Facades hd s id) →
  inv ∈ calls (shared c) → inv_key inv = k → accepted inv = true.
Proof.
  intros (_ & (_ & _ & Hgen) & Hsame & Hhd) Hrel Hin Hkey.
  destruct (Hgen inv Hin)
    as (j & g & factory & ctx & n & Hj & Hg & Hty & Hfac & Hres & Hid & Hctx).
  destruct (Hrel (caller g) (arg_id g)) as (factory' & Hfac' & Hok).
  { rewrite <-Hsame. apply list_elem_of_fmap. exists g.
    split; [done|]. by eapply list_elem_of_lookup_2. }
  { unfold objKey in Hg. congruence. }
  assert (factory' = factory) as -> by congruence.
  destruct (Hok ctx n Hid) as (o & Ho & Hass); [congruence|].
  unfold accepted. rewrite Hres, Ho, <-Hty.
  by destruct (checkType_assignable (name (inv_key inv)) (version (inv_key inv))
                 _ _ Hass) as [v ->].
Qed.

(** *** One goroutine on its own *)

Lemma run_cons Facades i sched c :
  run Facades (i :: sched) c = run Facades sched (default c (step Facades i c)).
Proof. reflexivity. Qed.

Lemma step_solo Facades g w p w' :
  goStep Facades g w = Some (p, w') →
  default {| shared := w; pool := [g] |}
          (step Facades 0 {| shared := w; pool := [g] |})
  = {| shared := w'; pool := [setPc g p] |}.
Proof. unfold step. cbn [pool shared lookup list_lookup]. by intros ->. Qed.

Lemma step_solo_finished Facades s id res w :
  default {| shared := w; pool := [MkGoroutine s id (Finished res)] |}
          (step Facades 0 {| shared := w; pool := [MkGoroutine s id (Finished res)] |})
  = {| shared := w; pool := [MkGoroutine s id (Finished res)] |}.
Proof. reflexivity. Qed.

Ltac solo :=
  rewrite run_cons;
  first [ rewrite step_solo_finished
        | erewrite step_solo
            by (unfold goStep, objKey;
                cbn [at_pc caller arg_id];
                repeat match goal with Heq : _ = _ |- _ => rewrite Heq end;
                cbn [writer readers unlocked Nat.pred];
                reflexivity) ];
  unfold setPc; cbn [caller arg_id at_pc].

Lemma creator_solo Facades s id w :
  objectMutex (root w) = unlocked →
  run Facades (replicate 10 0) {| shared := w; pool := [spawn (s, id)] |}
  = {| shared := (callCreator Facades s id w).2;
       pool := [{| caller := s; arg_id := id;
                   at_pc := Finished (callCreator Facades s id w).1 |}] |}.
Proof.
  intros Hm.
  change (replicate 10 0) with [0; 0; 0; 0; 0; 0; 0; 0; 0; 0].
  unfold callCreator, creator, spawn. cbn [fst snd].
  rewrite !locks_cancel.
  assert (Hcache : objectCache (root (RLock w)) = objectCache (root w)) by done.
  assert (Hcache' : objectCache (root (Lock w)) = objectCache (root w)) by done.
  rewrite Hcache, Hcache'.
  do 2 solo.
  destruct (objectCache (root w) !! _) as [v|] eqn:Hhit.
  { solo. rewrite locks_cancel. do 6 solo. reflexivity. }
  solo. rewrite locks_cancel. do 2 solo.
  destruct (GetFactory Facades _ _) as [factory|err] eqn:Hfac.
  2: { do 4 solo. reflexivity. }
  solo.
  destruct (factory _ _) as [obj|err] eqn:Hres.
  2: { do 3 solo. reflexivity. }
  solo.
  destruct (checkType _ _ _ obj) as [[v|err]|] eqn:Hcheck.
  1: do 3 solo; reflexivity.
  all: do 2 solo; reflexivity.
Qed.

(** C1, as amended.  Take any calls of creator closures started
    together on a fresh root and any interleaving [sched] of their
    steps, and fix a key.  (1) Two callers that have returned an
    instance for the key have returned the same one.  (2) An invocation
    of the factory for the key whose object was accepted is the last
    invocation for the key, so at most one is.  (3) When the
    constructor is reliable for the callers of the key, some caller has
    the key and all callers have returned, the factory was invoked
    exactly once for the key and every caller of the key returned the
    one instance.  (4) No interleaving gets stuck: the goroutines can
    always be run on until all have returned. *)
Theorem creator_concurrent Facades st res auth cs sched k :
  let c := run Facades sched (start st res auth cs) in
  (∀ i j g g' objValue objValue',
     pool c !! i = Some g → pool c !! j = Some g' →
     objKey g = k → objKey g' = k →
     at_pc g = Finished (Return (Ok objValue)) →
     at_pc g' = Finished (Return (Ok objValue')) →
     objValue = objValue')
  ∧ (∀ l1 inv l2,
       callsFor k c = l1 ++ inv :: l2 → accepted inv = true → l2 = [])
  ∧ ((∀ s id, (s, id) ∈ cs →
              ObjectKey (cr_rootName s) (cr_version s) id = k →
              reliable Facades (st, res, auth) s id) →
     (∃ s id, (s, id) ∈ cs ∧ ObjectKey (cr_rootName s) (cr_version s) id = k) →
     allFinished c = true →
     length (callsFor k c) = 1
     ∧ ∃ objValue, ∀ j g, pool c !! j = Some g → objKey g = k →
                          at_pc g = Finished (Return (Ok objValue)))
  ∧ (∃ sched', allFinished (run Facades sched' c) = true).
Proof.
  intros c.
  assert (Hinv : runInv Facades (st, res, auth) cs c)
    by apply runInv_run, runInv_start.
  pose proof Hinv as (Hlock & Hdata & Hsame & Hhd).
  pose proof Hdata as (Hloc & Hlog & Hgen).
  split; [|split; [|split]].
  - intros i j g g' v v' Hi Hj Hk Hk' Hpc Hpc'.
    pose proof (finished_value _ _ _ _ _ Hdata Hi Hpc) as Hv.
    pose proof (finished_value _ _ _ _ _ Hdata Hj Hpc') as Hv'.
    rewrite Hk in Hv. rewrite Hk' in Hv'. congruence.
  - intros l1 inv l2. by apply accepted_last.
  - intros Hrel (s & id & Hin & Hkey) Hfin.
    assert (Hall : ∀ inv, inv ∈ callsFor k c → accepted inv = true).
    { intros inv [? ?]%list_elem_of_filter. by eapply reliable_accepted. }
    assert (Hret : ∀ j g, pool c !! j = Some g → objKey g = k →
              ∃ objValue, at_pc g = Finished (Return (Ok objValue))
                ∧ objectCache (root (shared c)) !! k = Some objValue).
    { intros j g Hj Hg.
      destruct (allFinished_lookup c j g Hfin Hj) as [r Hpc].
      pose proof (Hloc _ _ Hj) as Hr. unfold localInv in Hr.
      rewrite Hpc in Hr. unfold resultInv in Hr.
      assert (Hbad :
        (∃ err, GetFactory Facades (cr_rootName (caller g)) (cr_version (caller g))
                = Err err)
        ∨ (∃ inv, inv ∈ calls (shared c) ∧ inv_key inv = objKey g
                  ∧ inv_goType inv = cr_goType (caller g) ∧ accepted inv = false)
        → False).
      { intros [[err Herr]|(inv & Hinc & Hik & _ & Hacc)].
        - destruct (Hrel (caller g) (arg_id g)) as (factory & Hfac & _).
          + rewrite <-Hsame. apply list_elem_of_fmap. exists g.
            split; [done|]. by eapply list_elem_of_lookup_2.
          + done.
          + congruence.
        - rewrite (reliable_accepted _ _ _ _ k inv Hinv Hrel Hinc) in Hacc;
            [done|congruence]. }
      destruct r as [[v|err]|]; [|by destruct Hbad..].
      exists v. by rewrite <-Hg. }
    assert (∃ j g, pool c !! j = Some g ∧ objKey g = k) as (j & g & Hj & Hg).
    { rewrite <-Hsame in Hin.
      apply list_elem_of_fmap in Hin as (g & [= -> ->] & (j & Hj)%list_elem_of_lookup_1).
      by exists j, g. }
    destruct (Hret j g Hj Hg) as (v & _ & Hv).
    split.
    + destruct (callsFor_shape c k Hlog) as (failures & rest & Heq & Hfail & _ & Hsome).
      destruct Hsome as (inv & -> & _); [by rewrite Hv|].
      destruct failures as [|x failures].
      * by rewrite Heq.
      * assert (accepted x = false) by (apply Hfail; apply list_elem_of_here).
        assert (accepted x = true)
          by (apply Hall; rewrite Heq; apply list_elem_of_here).
        congruence.
    + exists v. intros j' g' Hj' Hg'.
      destruct (Hret j' g' Hj' Hg') as (v' & -> & Hv'). congruence.
  - by apply run_to_end.
Qed.

End ConcurrentProperties.

(** C1 as stated fails.  A machine agent's connection resolves the
    storage facade twice at once; the storage constructor refuses a
    caller that is not a client user, nothing is cached, and the factory
    is invoked once per caller, neither of which receives an instance. *)
Lemma creator_concurrent_refused :
  let cs := [(Demo.storageCaller, ""); (Demo.storageCaller, "")] in
  let sched := [0; 1; 0; 1; 0; 1; 0; 0; 0; 0; 0; 1; 1; 1; 1; 1] in
  let c := run Demo.Facades sched (start () ∅ (MachineTag "0") cs) in
  FindMethod Demo.Facades "Storage" 1 "List" = Ok Demo.storageCaller
  ∧ allFinished c = true
  ∧ length (callsFor (ObjectKey "Storage" 1 "") c) = 2
  ∧ at_pc <$> pool c
    = [Finished (Return (Err (OtherError "permission denied")));
       Finished (Return (Err (OtherError "permission denied")))].
Proof. vm_compute. repeat split. Qed.

(** Three client calls of the storage facade under an interleaving in
    which all three miss the cache on the first lookup: one invocation,
    one instance. *)
Lemma creator_concurrent_witness :
  let cs := replicate 3 (Demo.storageCaller, "") in
  let sched := [0; 1; 2; 0; 1; 2; 0; 1; 2; 1; 1; 1; 1; 1; 1; 1;
                2; 2; 2; 2; 0; 0; 0; 0] in
  let c := run Demo.Facades sched (start () ∅ (UserTag "admin" "local") cs) in
  length (callsFor (ObjectKey "Storage" 1 "") c) = 1
  ∧ ∃ objValue, ∀ j g, pool c !! j = Some g →
                       objKey g = ObjectKey "Storage" 1 "" →
                       at_pc g = Finished (Return (Ok objValue)).
Proof.
  intros cs sched c.
  destruct (creator_concurrent Demo.Facades () ∅ (UserTag "admin" "local")
              cs sched (ObjectKey "Storage" 1 "")) as (_ & _ & Hone & _).
  apply Hone.
  - intros s id [[= -> ->] _]%elem_of_replicate _.
    exists Demo.storageFactory. split; [reflexivity|].
    intros ctx n _ [= _ _ Hauth].
    exists (MkObj n "*storage.API"). unfold Demo.storageFactory, Auth.
    rewrite Hauth. split; reflexivity.
  - exists Demo.storageCaller, "". split; [|reflexivity].
    apply elem_of_replicate. split; [reflexivity|discriminate].
  - vm_compute. reflexivity.
Defined.

(** ** Session teardown *)

Section KillProperties.

Context `{Reflection} `{Backend} `{AdminSurface}.

(** Both kill paths do one thing: they run StopAll on the resource
    table and leave every other field alone.  What a second run does to
    the resources is decided inside common.Resources. *)
Lemma Kill_is_StopAll (h : apiHandler) (r : apiRoot) :
  h_resources (apiHandler_Kill h) = StopAll (h_resources h)
  ∧ entity (apiHandler_Kill h) = entity h
  ∧ resources (apiRoot_Kill r) = StopAll (resources r)
  ∧ objectCache (apiRoot_Kill r) = objectCache r.
Proof. done. Qed.

Lemma Kill_twice (h : apiHandler) (r : apiRoot) :
  h_resources (apiHandler_Kill (apiHandler_Kill h))
  = StopAll (StopAll (h_resources h))
  ∧ resources (apiRoot_Kill (apiRoot_Kill r))
    = StopAll (StopAll (resources r)).
Proof. done. Qed.

End KillProperties.
